(** * bentoml/adapters/json_output.py

    A shallow embedding of the JSON output adapter: the encoder hook
    [NumpyJsonEncoder.default], [jsonize], and the three methods of
    [JsonSerializableOutput] ([to_batch_response], [to_cli],
    [to_aws_lambda_event]), over a model of the Python values and of the
    standard-library calls the file makes ([json.dumps], [json.loads],
    [argparse], list indexing, [str]). *)

From Stdlib Require Import ZArith NArith Ascii Lia Bool.
From stdpp Require Import base option list strings gmap.

Local Open Scope Z_scope.

(** ** Exceptions and outcomes *)

(** The exception classes the file names or that the calls it makes raise.
    [Exception] is the class that line 85 names; the classes from
    [TypeError] to [OtherError] derive from it and none of them derives
    from another one of the list ([OtherError] stands for any further
    class below [Exception]).  [BaseError] stands for the classes that
    derive from [BaseException] and not from [Exception]:
    [KeyboardInterrupt], [SystemExit], [GeneratorExit]. *)
Inductive exn_class : Type :=
  | Exception
  | TypeError
  | OverflowError
  | ValueError
  | AssertionError
  | IndexError
  | RecursionError
  | OtherError (name : string)
  | BaseError (name : string).

Record pyexn : Type := PyExn { exn_type : exn_class; exn_args : string }.

Definition exn_class_eqb (a b : exn_class) : bool :=
  match a, b with
  | Exception, Exception
  | TypeError, TypeError | OverflowError, OverflowError
  | ValueError, ValueError | AssertionError, AssertionError
  | IndexError, IndexError | RecursionError, RecursionError => true
  | OtherError x, OtherError y => bool_decide (x = y)
  | BaseError x, BaseError y => bool_decide (x = y)
  | _, _ => false
  end.

(** [issubclass(c, d)]: [c] is [d], or [d] is [Exception] and [c] derives
    from it. *)
Definition issubclass (c d : exn_class) : bool :=
  exn_class_eqb c d
  || match d, c with
     | Exception, BaseError _ => false
     | Exception, _ => true
     | _, _ => false
     end.

(** [isinstance(e, (c1, ..., cn))], the test an [except] clause makes. *)
Definition isinstance (e : pyexn) (classes : list exn_class) : bool :=
  existsb (issubclass (exn_type e)) classes.

(** [str(e)] for an exception raised with one text argument. *)
Definition str_exn (e : pyexn) : string := exn_args e.

(** A call either returns a value or raises. *)
Inductive outcome (A : Type) : Type :=
  | Return (a : A)
  | Raise (e : pyexn).
Arguments Return {A} a.
Arguments Raise {A} e.

Definition outcome_bind {A B} (f : A → outcome B) (c : outcome A) : outcome B :=
  match c with
  | Return a => f a
  | Raise e => Raise e
  end.

#[global] Instance outcome_mret : MRet outcome := @Return.
#[global] Instance outcome_mbind : MBind outcome := @outcome_bind.
#[global] Instance outcome_fmap : FMap outcome :=
  λ A B f c, match c with Return a => Return (f a) | Raise e => Raise e end.

(** Left-to-right traversal that stops at the first exception. *)
Fixpoint outcome_mapM {A B} (f : A → outcome B) (l : list A) : outcome (list B) :=
  match l with
  | [] => Return []
  | x :: l' => y ← f x; ys ← outcome_mapM f l'; Return (y :: ys)
  end.

(** A [for] loop over [l] that threads the state [st] through its body. *)
Fixpoint for_each {A S} (body : A → S → outcome S) (l : list A) (st : S) : outcome S :=
  match l with
  | [] => Return st
  | x :: l' => st' ← body x st; for_each body l' st'
  end.

(** ** Python values *)

(** A float.  A finite float is held as the shortest decimal that rounds to
    it, the digits [mant] and the power of ten [exp10] that the runtime's
    [repr] computes (value [mant * 10 ^ exp10], [mant] without trailing
    zero digit); [float(repr(x)) == x] makes this a representation. *)
Inductive pyfloat : Type :=
  | FNan
  | FInf (neg : bool)
  | FFinite (neg : bool) (mant : N) (exp10 : Z).

(** A numpy scalar ([np.generic]) that is not also an instance of a native
    class.  ([np.float64] and [np.str_] derive from [float] and [str]: the
    encoder takes them as such, they are [PFloat] and [PStr] below.)
    [NpFloat] is a float type whose [item()] is a native float
    ([np.float16], [np.float32]); [NpOther] a type whose [item()] is a
    native object of class [item_cls] ([complex], [datetime], ...);
    [NpExtended] a type without native counterpart ([np.longdouble],
    [np.clongdouble]), whose [item()] is a numpy scalar of the same type
    again. *)
Inductive np_scalar : Type :=
  | NpBool (b : bool)
  | NpInt (z : Z)
  | NpFloat (f : pyfloat)
  | NpOther (item_cls : string)
  | NpExtended (np_type : string).

(** An [np.ndarray]: its shape and its elements in row-major order. *)
Record ndarray : Type := NdArray { nd_shape : list nat; nd_data : list np_scalar }.

#[warnings="-register-all"]
Inductive pyval : Type :=
  | PNone
  | PBool (b : bool)
  | PInt (z : Z)
  | PFloat (f : pyfloat)
  | PStr (s : string)
  | PList (items : list pyval)
  | PTuple (items : list pyval)
  | PDict (entries : list (pyval * pyval))
  | PNpGeneric (s : np_scalar)
  | PNdarray (a : ndarray)
  | PObject (cls : string)
  | PBackRef (up : nat).
(** [PDict] keeps the insertion order, which [json.dumps] follows; the
    keys of a Python dict are pairwise distinct, which this type does not
    enforce: a property that builds a dict states that its keys are.
    [PObject cls] is an instance of any other class.  [PBackRef up] is a
    member that is one of the containers enclosing it ([up] levels above):
    [PList [PBackRef 0]] is [a = []; a.append(a)]. *)

(** ** The responses of bentoml.marshal.utils *)

(** [SimpleResponse(status, headers, data)]; [headers] is a tuple of pairs
    or [None]. *)
Record SimpleResponse : Type := mkSimpleResponse {
  status : Z;
  headers : option (list (string * string));
  data : string
}.

(** [SimpleRequest(headers, data)]. *)
Record SimpleRequest : Type := mkSimpleRequest {
  req_headers : list (string * string);
  req_data : string
}.

(** ** Text primitives of the runtime *)

Definition dquote : ascii := "034"%char.
Definition backslash : ascii := "092"%char.

Fixpoint join (sep : string) (chunks : list string) : string :=
  match chunks with
  | [] => EmptyString
  | [c] => c
  | c :: rest => c +:+ sep +:+ join sep rest
  end.

Definition is_digit (c : ascii) : bool :=
  (48 <=? N_of_ascii c)%N && (N_of_ascii c <=? 57)%N.

Fixpoint all_digits (s : string) : bool :=
  match s with
  | EmptyString => true
  | String c s' => is_digit c && all_digits s'
  end.

(** A text that does not start with a digit. *)
Definition no_digit_head (s : string) : bool :=
  match s with
  | String c _ => negb (is_digit c)
  | EmptyString => true
  end.

(** Decimal digits of a natural number, most significant first. *)
Definition digit_char (d : N) : ascii := ascii_of_N (48 + d).

Fixpoint dec_string_aux (fuel : nat) (n : N) (acc : string) : string :=
  let acc' := String (digit_char (n mod 10)) acc in
  match fuel with
  | O => acc'
  | S fuel' => if (n <? 10)%N then acc' else dec_string_aux fuel' (n / 10) acc'
  end.

Definition dec_string (n : N) : string :=
  dec_string_aux (N.to_nat (N.log2 n)) n EmptyString.

(** [int.__repr__]. *)
Definition int_repr (z : Z) : string :=
  match z with
  | Zneg p => String "-" (dec_string (Npos p))
  | _ => dec_string (Z.to_N z)
  end.

Definition hex_char (d : N) : ascii :=
  if (d <? 10)%N then ascii_of_N (48 + d) else ascii_of_N (87 + d).

Fixpoint zeros (n : nat) : string :=
  match n with
  | O => EmptyString
  | S n' => String "0" (zeros n')
  end.

Fixpoint string_take (n : nat) (s : string) : string :=
  match n, s with
  | S n', String c s' => String c (string_take n' s')
  | _, _ => EmptyString
  end.

Fixpoint string_drop (n : nat) (s : string) : string :=
  match n, s with
  | S n', String _ s' => string_drop n' s'
  | _, _ => s
  end.

(** [float.__repr__] of a finite float with digits [mant] and decimal point
    position [decpt = exp10 + number of digits]: exponent notation when
    [decpt <= -4] or [decpt > 16], else positional notation, with [.0]
    added to an integral value. *)
Definition float_repr_finite (neg : bool) (mant : N) (exp10 : Z) : string :=
  let digits := dec_string mant in
  let n := Z.of_nat (String.length digits) in
  let decpt := exp10 + n in
  let body :=
    if (decpt <=? -4) || (16 <? decpt) then
      let e := decpt - 1 in
      let edigits := dec_string (Z.to_N (Z.abs e)) in
      string_take 1 digits
      +:+ (if 1 <? n then String "." (string_drop 1 digits) else EmptyString)
      +:+ String "e" (String (if e <? 0 then "-"%char else "+"%char)
            (if (String.length edigits <? 2)%nat then String "0" edigits else edigits))
    else if decpt <=? 0 then
      "0." +:+ zeros (Z.to_nat (- decpt)) +:+ digits
    else if decpt <? n then
      string_take (Z.to_nat decpt) digits
      +:+ String "." (string_drop (Z.to_nat decpt) digits)
    else
      digits +:+ zeros (Z.to_nat (decpt - n)) +:+ ".0" in
  if neg then String "-" body else body.

Definition float_repr (f : pyfloat) : string :=
  match f with
  | FNan => "nan"
  | FInf false => "inf"
  | FInf true => "-inf"
  | FFinite neg mant exp10 => float_repr_finite neg mant exp10
  end.

(** ** numpy conversions *)

(** [o.item()]: the native value of a numpy scalar, or the scalar itself
    when its type has no native counterpart. *)
Definition item (s : np_scalar) : pyval :=
  match s with
  | NpBool b => PBool b
  | NpInt z => PInt z
  | NpFloat f => PFloat f
  | NpOther c => PObject c
  | NpExtended _ => PNpGeneric s
  end.

Definition product (shape : list nat) : nat := foldr Nat.mul 1%nat shape.

(** [a.tolist()]: nested lists, one level per dimension, the blocks of the
    row-major data in order; a 0-dimensional array gives its one item. *)
Fixpoint tolist_rec (shape : list nat) (elems : list np_scalar) : pyval :=
  match shape with
  | [] => match elems with x :: _ => item x | [] => PNone end
  | n :: shape' =>
      let stride := product shape' in
      PList (map (λ k, tolist_rec shape' (take stride (drop (k * stride) elems)))
                 (seq 0 n))
  end.

Definition tolist (a : ndarray) : pyval := tolist_rec (nd_shape a) (nd_data a).

(** ** json.dumps *)

Module Json.

(** [encode_basestring_ascii]: the escapes of [ESCAPE_DCT], printable
    ASCII as it is, every other character as [\u00xx]. *)
Definition escape_char (c : ascii) : string :=
  let n := N_of_ascii c in
  if (n =? 34)%N then String backslash (String dquote EmptyString)
  else if (n =? 92)%N then String backslash (String backslash EmptyString)
  else if (n =? 10)%N then String backslash "n"
  else if (n =? 13)%N then String backslash "r"
  else if (n =? 9)%N then String backslash "t"
  else if (n =? 12)%N then String backslash "f"
  else if (n =? 8)%N then String backslash "b"
  else if (32 <=? n)%N && (n <=? 126)%N then String c EmptyString
  else String backslash
         (String "u" (String "0" (String "0"
           (String (hex_char (n / 16)) (String (hex_char (n mod 16)) EmptyString))))).

Fixpoint escape_string (s : string) : string :=
  match s with
  | EmptyString => EmptyString
  | String c s' => escape_char c +:+ escape_string s'
  end.

Definition encode_basestring_ascii (s : string) : string :=
  String dquote (escape_string s +:+ String dquote EmptyString).

(** [floatstr] with [allow_nan=True]. *)
Definition floatstr (f : pyfloat) : string :=
  match f with
  | FNan => "NaN"
  | FInf false => "Infinity"
  | FInf true => "-Infinity"
  | FFinite _ _ _ => float_repr f
  end.

Definition type_name (o : pyval) : string :=
  match o with
  | PNone => "NoneType"
  | PBool _ => "bool"
  | PInt _ => "int"
  | PFloat _ => "float"
  | PStr _ => "str"
  | PList _ => "list"
  | PTuple _ => "tuple"
  | PDict _ => "dict"
  | PNpGeneric _ => "generic"
  | PNdarray _ => "ndarray"
  | PObject cls => cls
  | PBackRef _ => "list"
  end.

(** The text of a dict key: only [str], [int], [float], [bool] and [None]
    keys are accepted ([skipkeys=False]). *)
Definition key_str (k : pyval) : outcome string :=
  match k with
  | PStr s => Return s
  | PFloat f => Return (floatstr f)
  | PBool true => Return "true"
  | PBool false => Return "false"
  | PNone => Return "null"
  | PInt z => Return (int_repr z)
  | _ => Raise (PyExn TypeError
           ("keys must be str, int, float, bool or None, not " +:+ type_name k))
  end.

(** [JSONEncoder.default]. *)
Definition JSONEncoder_default (o : pyval) : outcome pyval :=
  Raise (PyExn TypeError
           ("Object of type " +:+ type_name o +:+ " is not JSON serializable")).

(** [_iterencode], joined: the encoder with its [default] hook.  A member
    that is an enclosing container is found in [markers]
    ([check_circular=True]).  [fuel] bounds the depth of the recursion:
    a hook that returns its argument makes the recursion run until the
    interpreter stops it with a [RecursionError] (whose text depends on
    where it stops). *)
Fixpoint iterencode (default : pyval → outcome pyval) (fuel : nat) (o : pyval)
    : outcome string :=
  match fuel with
  | O => Raise (PyExn RecursionError "maximum recursion depth exceeded")
  | S fuel' =>
    match o with
    | PStr s => Return (encode_basestring_ascii s)
    | PNone => Return "null"
    | PBool true => Return "true"
    | PBool false => Return "false"
    | PInt z => Return (int_repr z)
    | PFloat f => Return (floatstr f)
    | PList items | PTuple items =>
        chunks ← outcome_mapM (iterencode default fuel') items;
        Return ("[" +:+ join ", " chunks +:+ "]")
    | PDict entries =>
        chunks ← outcome_mapM
                   (λ kv, k ← key_str kv.1;
                          v ← iterencode default fuel' kv.2;
                          Return (encode_basestring_ascii k +:+ ": " +:+ v))
                   entries;
        Return ("{" +:+ join ", " chunks +:+ "}")
    | PBackRef _ => Raise (PyExn ValueError "Circular reference detected")
    | _ => o' ← default o; iterencode default fuel' o'
    end
  end.

(** The depth of the recursion on [o], the numpy conversions counted. *)
Fixpoint depth (o : pyval) : nat :=
  match o with
  | PList items | PTuple items => S (foldr (λ x, Nat.max (depth x)) 0%nat items)
  | PDict entries => S (foldr (λ kv, Nat.max (depth kv.2)) 0%nat entries)
  | PNpGeneric _ => 2
  | PNdarray a => S (S (S (length (nd_shape a))))
  | _ => 1
  end.

(** [json.dumps(o, cls=...)] on a stack deep enough for [o], with the
    limit on the digits of an integer lifted
    ([sys.set_int_max_str_digits(0)]). *)
Definition dumps (default : pyval → outcome pyval) (o : pyval) : outcome string :=
  iterencode default (S (depth o)) o.

(** ** json.loads *)

(** [JSONDecodeError] derives from [ValueError]. *)
Definition decode_error {A} (msg : string) : outcome A := Raise (PyExn ValueError msg).

Definition is_ws (c : ascii) : bool :=
  let n := N_of_ascii c in
  (n =? 32)%N || (n =? 9)%N || (n =? 10)%N || (n =? 13)%N.

Fixpoint skip_ws (s : string) : string :=
  match s with
  | String c s' => if is_ws c then skip_ws s' else s
  | EmptyString => s
  end.

Fixpoint strip_prefix (p s : string) : option string :=
  match p, s with
  | EmptyString, _ => Some s
  | String a p', String b s' => if Ascii.eqb a b then strip_prefix p' s' else None
  | _, _ => None
  end.

Definition hex_value (c : ascii) : option N :=
  let n := N_of_ascii c in
  if (48 <=? n)%N && (n <=? 57)%N then Some (n - 48)%N
  else if (97 <=? n)%N && (n <=? 102)%N then Some (n - 87)%N
  else if (65 <=? n)%N && (n <=? 70)%N then Some (n - 55)%N
  else None.

(** The escapes of [BACKSLASH]. *)
Definition unescape (c : ascii) : option ascii :=
  let n := N_of_ascii c in
  if (n =? 34)%N then Some dquote
  else if (n =? 92)%N then Some backslash
  else if (n =? 47)%N then Some "/"%char
  else if (n =? 98)%N then Some "008"%char
  else if (n =? 102)%N then Some "012"%char
  else if (n =? 110)%N then Some "010"%char
  else if (n =? 114)%N then Some "013"%char
  else if (n =? 116)%N then Some "009"%char
  else None.

(** [py_scanstring] in strict mode, from the character after the opening
    quote: the text and what follows the closing quote.  A [\u] escape
    above [ÿ] has no character in [string] and is refused. *)
Fixpoint scanstring (s : string) : outcome (string * string) :=
  match s with
  | EmptyString => decode_error "Unterminated string starting at"
  | String c s' =>
      if Ascii.eqb c dquote then Return (EmptyString, s')
      else if Ascii.eqb c backslash then
        match s' with
        | EmptyString => decode_error "Unterminated string starting at"
        | String "u" (String h1 (String h2 (String h3 (String h4 s'')))) =>
            match hex_value h1, hex_value h2, hex_value h3, hex_value h4 with
            | Some a, Some b, Some c, Some d =>
                if (a =? 0)%N && (b =? 0)%N then
                  '(text, rest) ← scanstring s'';
                  Return (String (ascii_of_N (16 * c + d)) text, rest)
                else decode_error "character outside the range of string"
            | _, _, _, _ => decode_error "Invalid \uXXXX escape"
            end
        | String "u" _ => decode_error "Invalid \uXXXX escape"
        | String e s'' =>
            match unescape e with
            | Some ch => '(text, rest) ← scanstring s''; Return (String ch text, rest)
            | None => decode_error "Invalid \escape"
            end
        end
      else if (N_of_ascii c <? 32)%N then decode_error "Invalid control character at"
      else '(text, rest) ← scanstring s'; Return (String c text, rest)
  end.

(** The longest run of digits at the head of [s], and the rest. *)
Fixpoint span_digits (s : string) : string * string :=
  match s with
  | String c s' =>
      if is_digit c then let '(d, r) := span_digits s' in (String c d, r)
      else (EmptyString, s)
  | EmptyString => (EmptyString, s)
  end.

Fixpoint N_of_digits_acc (s : string) (acc : N) : N :=
  match s with
  | EmptyString => acc
  | String c s' => N_of_digits_acc s' (10 * acc + (N_of_ascii c - 48))%N
  end.

Definition N_of_digits (s : string) : N := N_of_digits_acc s 0%N.

(** A match of [NUMBER_RE]: an optional minus sign, then [0] or a run of
    digits that starts with a non-zero one, then an optional fraction (a
    dot and at least one digit), then an optional exponent ([e] or [E], an
    optional sign, at least one digit). *)
Record number_match : Type := mkNumber {
  num_neg : bool;
  num_int : string;
  num_frac : option string;
  num_exp : option (bool * string);
  num_rest : string
}.

Definition match_frac (s : string) : option string * string :=
  match strip_prefix "." s with
  | Some s' =>
      match span_digits s' with
      | (EmptyString, _) => (None, s)
      | (d, r) => (Some d, r)
      end
  | None => (None, s)
  end.

Definition match_exp (s : string) : option (bool * string) * string :=
  match s with
  | String c s' =>
      if Ascii.eqb c "e" || Ascii.eqb c "E" then
        let '(neg, s'') :=
          match strip_prefix "-" s', strip_prefix "+" s' with
          | Some t, _ => (true, t)
          | _, Some t => (false, t)
          | _, _ => (false, s')
          end in
        match span_digits s'' with
        | (EmptyString, _) => (None, s)
        | (d, r) => (Some (neg, d), r)
        end
      else (None, s)
  | EmptyString => (None, s)
  end.

Definition match_number (s : string) : option number_match :=
  let '(neg, s0) := match strip_prefix "-" s with
                    | Some t => (true, t)
                    | None => (false, s)
                    end in
  match s0 with
  | String c s1 =>
      if Ascii.eqb c "0" then
        let '(frac, s2) := match_frac s1 in
        let '(exp, s3) := match_exp s2 in
        Some (mkNumber neg "0" frac exp s3)
      else if is_digit c then
        let '(d, s1') := span_digits s1 in
        let '(frac, s2) := match_frac s1' in
        let '(exp, s3) := match_exp s2 in
        Some (mkNumber neg (String c d) frac exp s3)
      else None
  | EmptyString => None
  end.

Fixpoint strip_zeros (fuel : nat) (m : N) (e : Z) : N * Z :=
  match fuel with
  | O => (m, e)
  | S fuel' => if (m mod 10 =? 0)%N then strip_zeros fuel' (m / 10)%N (e + 1) else (m, e)
  end.

(** [float(text)] of a number literal, in the representation of
    [pyfloat]: the decimal itself, without trailing zero digits. *)
Definition float_of_literal (neg : bool) (int_part : string) (frac : option string)
    (exp : option (bool * string)) : pyfloat :=
  let frac := default EmptyString frac in
  let e := match exp with
           | Some (true, d) => - Z.of_N (N_of_digits d)
           | Some (false, d) => Z.of_N (N_of_digits d)
           | None => 0
           end in
  let digits := int_part +:+ frac in
  let m := N_of_digits digits in
  if (m =? 0)%N then FFinite neg 0 0
  else
    let '(m', e') := strip_zeros (String.length digits) m (e - Z.of_nat (String.length frac)) in
    FFinite neg m' e'.

Definition value_of_number (n : number_match) : pyval :=
  match num_frac n, num_exp n with
  | None, None =>
      let z := Z.of_N (N_of_digits (num_int n)) in
      PInt (if num_neg n then - z else z)
  | frac, exp => PFloat (float_of_literal (num_neg n) (num_int n) frac exp)
  end.

(** [dict(pairs)]: a later pair with the same key replaces the value. *)
Fixpoint dict_set (d : list (pyval * pyval)) (k : string) (v : pyval)
    : list (pyval * pyval) :=
  match d with
  | [] => [(PStr k, v)]
  | (PStr k', v') :: d' =>
      if String.eqb k' k then (PStr k', v) :: d' else (PStr k', v') :: dict_set d' k v
  | kv :: d' => kv :: dict_set d' k v
  end.

Definition dict_of_pairs (pairs : list (string * pyval)) : list (pyval * pyval) :=
  foldl (λ d kv, dict_set d kv.1 kv.2) [] pairs.

(** [scan_once] with [JSONArray] and [JSONObject]: the value at the head of
    [s] and the rest of [s].  [fuel] bounds the number of nested calls. *)
Fixpoint scan_once (fuel : nat) (s : string) : outcome (pyval * string) :=
  match fuel with
  | O => Raise (PyExn RecursionError "maximum recursion depth exceeded")
  | S fuel' =>
    match s with
    | EmptyString => decode_error "Expecting value"
    | String c s' =>
        if Ascii.eqb c dquote then
          '(text, rest) ← scanstring s'; Return (PStr text, rest)
        else if Ascii.eqb c "{" then
          match strip_prefix "}" (skip_ws s') with
          | Some rest => Return (PDict [], rest)
          | None => '(pairs, rest) ← scan_pairs fuel' (skip_ws s');
                    Return (PDict (dict_of_pairs pairs), rest)
          end
        else if Ascii.eqb c "[" then
          match strip_prefix "]" (skip_ws s') with
          | Some rest => Return (PList [], rest)
          | None => '(values, rest) ← scan_values fuel' (skip_ws s');
                    Return (PList values, rest)
          end
        else
          match strip_prefix "null" s, strip_prefix "true" s, strip_prefix "false" s with
          | Some rest, _, _ => Return (PNone, rest)
          | _, Some rest, _ => Return (PBool true, rest)
          | _, _, Some rest => Return (PBool false, rest)
          | _, _, _ =>
              match match_number s with
              | Some n => Return (value_of_number n, num_rest n)
              | None =>
                  match strip_prefix "NaN" s, strip_prefix "Infinity" s,
                        strip_prefix "-Infinity" s with
                  | Some rest, _, _ => Return (PFloat FNan, rest)
                  | _, Some rest, _ => Return (PFloat (FInf false), rest)
                  | _, _, Some rest => Return (PFloat (FInf true), rest)
                  | _, _, _ => decode_error "Expecting value"
                  end
              end
          end
    end
  end
with scan_values (fuel : nat) (s : string) : outcome (list pyval * string) :=
  match fuel with
  | O => Raise (PyExn RecursionError "maximum recursion depth exceeded")
  | S fuel' =>
      '(value, s1) ← scan_once fuel' s;
      match strip_prefix "]" (skip_ws s1), strip_prefix "," (skip_ws s1) with
      | Some rest, _ => Return ([value], rest)
      | _, Some s2 =>
          '(values, rest) ← scan_values fuel' (skip_ws s2);
          Return (value :: values, rest)
      | _, _ => decode_error "Expecting ',' delimiter"
      end
  end
with scan_pairs (fuel : nat) (s : string) : outcome (list (string * pyval) * string) :=
  match fuel with
  | O => Raise (PyExn RecursionError "maximum recursion depth exceeded")
  | S fuel' =>
      match strip_prefix (String dquote EmptyString) s with
      | Some s0 =>
          '(key, s1) ← scanstring s0;
          match strip_prefix ":" (skip_ws s1) with
          | Some s2 =>
              '(value, s3) ← scan_once fuel' (skip_ws s2);
              match strip_prefix "}" (skip_ws s3), strip_prefix "," (skip_ws s3) with
              | Some rest, _ => Return ([(key, value)], rest)
              | _, Some s4 =>
                  '(pairs, rest) ← scan_pairs fuel' (skip_ws s4);
                  Return ((key, value) :: pairs, rest)
              | _, _ => decode_error "Expecting ',' delimiter"
              end
          | None => decode_error "Expecting ':' delimiter"
          end
      | None => decode_error "Expecting property name enclosed in double quotes"
      end
  end.

(** [json.loads(s)]. *)
Definition loads (s : string) : outcome pyval :=
  '(obj, rest) ← scan_once (S (String.length s)) (skip_ws s);
  match skip_ws rest with
  | EmptyString => Return obj
  | _ => decode_error "Extra data"
  end.

End Json.

(** A hook whose results need a shallower recursion than its arguments,
    unless it returns its argument. *)
Definition shrinking (d : pyval → outcome pyval) : Prop :=
  ∀ o o', d o = Return o' → (Json.depth o' < Json.depth o)%nat ∨ o' = o.

(** The error of [check_circular]. *)
Definition circular_reference : pyexn := PyExn ValueError "Circular reference detected".

(** A value the encoder finds cyclic: a list, tuple or dict value that is
    one of the containers around it. *)
Fixpoint cyclic (o : pyval) : bool :=
  match o with
  | PBackRef _ => true
  | PList items | PTuple items => existsb cyclic items
  | PDict entries => existsb (λ kv, cyclic kv.2) entries
  | _ => false
  end.

(** The numpy scalars that hold a number with a native counterpart:
    [bool_], the integers and the floats whose [item()] is a native
    float. *)
Definition numeric (s : np_scalar) : bool :=
  match s with
  | NpBool _ | NpInt _ | NpFloat _ => true
  | NpOther _ | NpExtended _ => false
  end.

(** The numpy scalars whose [item()] is a numpy scalar again. *)
Definition extended (s : np_scalar) : bool :=
  match s with
  | NpExtended _ => true
  | _ => false
  end.

(** The JSON text of a native scalar. *)
Definition scalar_text (s : np_scalar) : string :=
  match s with
  | NpBool true => "true"
  | NpBool false => "false"
  | NpInt z => int_repr z
  | NpFloat f => Json.floatstr f
  | NpOther _ | NpExtended _ => EmptyString
  end.

(** ** argparse *)

Module Argparse.

(** The actions the module registers: [store] of one argument checked
    against [choices], and the [help] action every parser has. *)
Inductive action : Type :=
  | StoreAction (dest : string) (choices : list string)
  | HelpAction.

Record ArgumentParser : Type := mkParser {
  option_string_actions : list (string * action);
  defaults : gmap string string
}.

(** [ArgumentParser()], with [add_help=True]. *)
Definition new_parser : ArgumentParser :=
  mkParser [("-h", HelpAction); ("--help", HelpAction)] ∅.

(** [parser.add_argument(flags, default, choices)]; [dest] is
    the name argparse derives from the first long flag. *)
Definition add_argument (p : ArgumentParser) (flags : list string) (dest : string)
    (default : string) (choices : list string) : ArgumentParser :=
  mkParser (option_string_actions p ++ map (λ f, (f, StoreAction dest choices)) flags)
           (<[dest := default]> (defaults p)).

Inductive parse_result : Type :=
  | Namespace (ns : gmap string string)
  | SystemExit (code : Z).
(** [SystemExit 2] is [parser.error]: the usage message goes to the
    standard error.  [SystemExit 0] is the help action. *)

Fixpoint lookup_action (reg : list (string * action)) (s : string) : option action :=
  match reg with
  | [] => None
  | (o, a) :: reg' => if String.eqb o s then Some a else lookup_action reg' s
  end.

(** [s.split('=', 1)] when ['=' in s]. *)
Fixpoint split_eq (s : string) : option (string * string) :=
  match s with
  | EmptyString => None
  | String c s' =>
      if Ascii.eqb c "=" then Some (EmptyString, s')
      else match split_eq s' with
           | Some (a, b) => Some (String c a, b)
           | None => None
           end
  end.

Fixpoint skip_digits (s : string) : string :=
  match s with
  | String c s' => if is_digit c then skip_digits s' else s
  | EmptyString => s
  end.

(** [_negative_number_matcher]: [^-\d+$|^-\d*\.\d+$]. *)
Definition negative_number (s : string) : bool :=
  match s with
  | String "-" s' =>
      match skip_digits s' with
      | EmptyString => negb (String.eqb s' EmptyString)
      | String "." frac => negb (String.eqb frac EmptyString) && all_digits frac
      | _ => false
      end
  | _ => false
  end.

Fixpoint has_space (s : string) : bool :=
  match s with
  | EmptyString => false
  | String c s' => Ascii.eqb c " " || has_space s'
  end.

Inductive parsed : Type :=
  | Positional
  | Unknown
  | Ambiguous
  | Optional (a : action) (option_string : string) (explicit_arg : option string).

(** [_get_option_tuples]. *)
Definition get_option_tuples (reg : list (string * action)) (arg : string)
    : list parsed :=
  match arg with
  | String _ (String "-" _) =>
      let '(option_prefix, explicit_arg) :=
        match split_eq arg with
        | Some (o, e) => (o, Some e)
        | None => (arg, None)
        end in
      omap (λ oa, if String.prefix option_prefix oa.1
                  then Some (Optional oa.2 oa.1 explicit_arg) else None) reg
  | String c0 (String c1 short_explicit_arg) =>
      let short_option_prefix := String c0 (String c1 EmptyString) in
      omap (λ oa, if String.eqb oa.1 short_option_prefix
                  then Some (Optional oa.2 oa.1 (Some short_explicit_arg))
                  else if String.prefix arg oa.1
                  then Some (Optional oa.2 oa.1 None) else None) reg
  | _ => []
  end.

(** [_parse_optional]; no registered option looks like a negative
    number. *)
Definition parse_optional (reg : list (string * action)) (arg : string) : parsed :=
  match arg with
  | EmptyString => Positional
  | String c rest =>
      if negb (Ascii.eqb c "-") then Positional
      else match lookup_action reg arg with
      | Some a => Optional a arg None
      | None =>
          if String.eqb rest EmptyString then Positional
          else
            match (match split_eq arg with
                   | Some (o, e) =>
                       match lookup_action reg o with
                       | Some a => Some (Optional a o (Some e))
                       | None => None
                       end
                   | None => None
                   end) with
            | Some r => r
            | None =>
                match get_option_tuples reg arg with
                | [t] => t
                | _ :: _ :: _ => Ambiguous
                | [] =>
                    if negative_number arg then Positional
                    else if has_space arg then Positional
                    else Unknown
                end
            end
      end
  end.

(** An argument string that can be the value of an option (pattern [A]). *)
Definition is_argument (reg : list (string * action)) (arg : string) : bool :=
  negb (String.eqb arg "--")
  && match parse_optional reg arg with Positional => true | _ => false end.

Definition is_short (option_string : string) : bool :=
  match option_string with
  | String _ (String c _) => negb (Ascii.eqb c "-")
  | _ => false
  end.

(** What [consume_optional] queues for an option without explicit
    argument: the actions with their argument, and whether the next
    argument string is taken.  [None] is [parser.error]. *)
Definition consume_plain (reg : list (string * action)) (a : action)
    (next : option string) : option (list (action * string) * bool) :=
  match a with
  | HelpAction => Some ([(a, EmptyString)], false)
  | StoreAction _ _ =>
      match next with
      | Some v => if is_argument reg v then Some ([(a, v)], true) else None
      | None => None
      end
  end.

(** The same with an explicit argument; an action without argument then
    stands first in a cluster of single-dash flags. *)
Fixpoint consume_explicit (reg : list (string * action)) (a : action)
    (option_string : string) (explicit_arg : string) (next : option string)
    : option (list (action * string) * bool) :=
  match a with
  | StoreAction _ _ => Some ([(a, explicit_arg)], false)
  | HelpAction =>
      match explicit_arg with
      | EmptyString => None
      | String c e' =>
          if is_short option_string then
            let option_string' := String "-" (String c EmptyString) in
            match lookup_action reg option_string' with
            | None => None
            | Some a' =>
                match (match e' with
                       | EmptyString => consume_plain reg a' next
                       | _ => consume_explicit reg a' option_string' e' next
                       end) with
                | Some (queue, taken) => Some ((a, EmptyString) :: queue, taken)
                | None => None
                end
            end
          else None
      end
  end.

(** [take_action] on the queued actions, in order. *)
Fixpoint take_actions (queue : list (action * string)) (ns : gmap string string)
    : parse_result :=
  match queue with
  | [] => Namespace ns
  | (HelpAction, _) :: _ => SystemExit 0
  | (StoreAction dest choices, v) :: queue' =>
      if existsb (String.eqb v) choices then take_actions queue' (<[dest := v]> ns)
      else SystemExit 2
  end.

(** The loop of [_parse_known_args] and the check of [parse_args]; the
    parser has no positional argument. *)
Fixpoint parse_loop (reg : list (string * action)) (args : list string)
    (ns : gmap string string) (extras : list string) : parse_result :=
  match args with
  | [] => match extras with [] => Namespace ns | _ => SystemExit 2 end
  | arg :: rest =>
      if String.eqb arg "--" then SystemExit 2
      else match parse_optional reg arg with
      | Positional | Unknown => parse_loop reg rest ns (extras ++ [arg])
      | Ambiguous => SystemExit 2
      | Optional a option_string explicit_arg =>
          match (match explicit_arg with
                 | None => consume_plain reg a (head rest)
                 | Some e => consume_explicit reg a option_string e (head rest)
                 end) with
          | None => SystemExit 2
          | Some (queue, taken) =>
              match take_actions queue ns with
              | SystemExit code => SystemExit code
              | Namespace ns' =>
                  if taken then
                    match rest with
                    | _ :: rest' => parse_loop reg rest' ns' extras
                    | [] => SystemExit 2
                    end
                  else parse_loop reg rest ns' extras
              end
          end
      end
  end.

(** [parser.parse_args(args)]. *)
Definition parse_args (p : ArgumentParser) (args : list string) : parse_result :=
  parse_loop (option_string_actions p) args (defaults p) [].

End Argparse.

(** ** The module under verification *)

(** [NumpyJsonEncoder.default]. *)
Definition NumpyJsonEncoder_default (o : pyval) : outcome pyval :=
  match o with
  | PNpGeneric s => Return (item s)
  | PNdarray a => Return (tolist a)
  | _ => Json.JSONEncoder_default o
  end.

(** A slice selector that is not [None]: an index or a [start:stop] slice. *)
Inductive index : Type :=
  | Index (i : Z)
  | Slice (start stop : option Z).

(** The result collection [result_conc]: a list or a tuple. *)
Inductive sequence : Type :=
  | ListOf (items : list pyval)
  | TupleOf (items : list pyval).

Definition items_of (c : sequence) : list pyval :=
  match c with
  | ListOf items | TupleOf items => items
  end.

Definition sequence_name (c : sequence) : string :=
  match c with
  | ListOf _ => "list"
  | TupleOf _ => "tuple"
  end.

(** A slice of a list is a list, a slice of a tuple a tuple. *)
Definition slice_of (c : sequence) (items : list pyval) : pyval :=
  match c with
  | ListOf _ => PList items
  | TupleOf _ => PTuple items
  end.

(** The adapter object; [cors] is set by [BaseOutputAdapter.__init__]. *)
Record JsonSerializableOutput : Type := mkJsonSerializableOutput {
  cors : option string
}.

Section JsonOutput.

(** The builtin [str]: it runs the [__str__] and [__repr__] of the value
    and of its members, which return text or raise. *)
Variable py_str : pyval → outcome string.

(** [jsonize]. *)
Definition jsonize (result : pyval) : outcome string :=
  match Json.dumps NumpyJsonEncoder_default result with
  | Return text => Return text
  | Raise e =>
      if isinstance e [TypeError; OverflowError] then
        (* when result is not JSON serializable *)
        text ← py_str result;
        Json.dumps Json.JSONEncoder_default (PDict [(PStr "result", PStr text)])
      else Raise e
  end.


(** *** to_batch_response *)

(** [result_conc[s]] for a list or a tuple: an index, negative ones
    counted from the end, or a slice [start:stop]. *)
Definition normalize_bound (len : Z) (b : option Z) (dflt : Z) : Z :=
  match b with
  | None => dflt
  | Some i => if i <? 0 then Z.max (i + len) 0 else Z.min i len
  end.

Definition getitem (c : sequence) (s : index) : outcome pyval :=
  let l := items_of c in
  let len := Z.of_nat (length l) in
  match s with
  | Index i =>
      let i' := if i <? 0 then i + len else i in
      match (if (0 <=? i') && (i' <? len) then l !! Z.to_nat i' else None) with
      | Some x => Return x
      | None => Raise (PyExn IndexError (sequence_name c +:+ " index out of range"))
      end
  | Slice start stop =>
      let lo := normalize_bound len start 0 in
      let hi := normalize_bound len stop len in
      Return (slice_of c (take (Z.to_nat (hi - lo)) (drop (Z.to_nat lo) l)))
  end.

(** [l[i] = x]. *)
Definition list_setitem {A} (l : list A) (i : nat) (x : A) : outcome (list A) :=
  if (i <? length l)%nat then Return (<[i := x]> l)
  else Raise (PyExn IndexError "list assignment index out of range").

Definition enumerate {A} (l : list A) : list (nat * A) := zip (seq 0 (length l)) l.

Definition content_type_json : list (string * string) :=
  [("Content-Type", "application/json")].

(** The body of the loop of lines 72-86, over a store [S] of responses
    with its item assignment [setitem].  An exception that is neither an
    [AssertionError] nor an [Exception] passes both [except] clauses. *)
Definition batch_body {S} (setitem : S → nat → option SimpleResponse → outcome S)
    (result_conc : sequence)
    (x : nat * (option index * option SimpleResponse)) (responses : S) : outcome S :=
  let '(i, (s, f)) := x in
  match s with
  | None => setitem responses i f
  | Some s =>
      result ← getitem result_conc s;
      match (json_output ← jsonize result;
             setitem responses i
               (Some (mkSimpleResponse 200 (Some content_type_json) json_output))) with
      | Return responses' => Return responses'
      | Raise e =>
          if isinstance e [AssertionError] then
            setitem responses i (Some (mkSimpleResponse 400 None (str_exn e)))
          else if isinstance e [Exception] then
            setitem responses i (Some (mkSimpleResponse 500 None (str_exn e)))
          else Raise e
      end
  end.

Definition default_slices (result_conc : sequence) : list (option index) :=
  map (λ x, Some (Index (Z.of_nat x.1))) (enumerate (items_of result_conc)).

(** [to_batch_response]. *)
Definition to_batch_response (self : JsonSerializableOutput)
    (result_conc : sequence)
    (slices : option (list (option index)))
    (fallbacks : option (list (option SimpleResponse)))
    (requests : option (list SimpleRequest))
    : outcome (list (option SimpleResponse)) :=
  let slices := default (default_slices result_conc) slices in
  let fallbacks := default (replicate (length slices) None) fallbacks in
  let responses := replicate (length slices) None in
  for_each (batch_body list_setitem result_conc)
           (enumerate (zip slices fallbacks)) responses.

(** The same loop on a store that also logs the positions assigned, in
    order. *)
Definition logged_setitem (st : list (option SimpleResponse) * list nat)
    (i : nat) (x : option SimpleResponse)
    : outcome (list (option SimpleResponse) * list nat) :=
  l ← list_setitem st.1 i x; Return (l, st.2 ++ [i]).

Definition to_batch_response_logged (self : JsonSerializableOutput)
    (result_conc : sequence)
    (slices : option (list (option index)))
    (fallbacks : option (list (option SimpleResponse)))
    (requests : option (list SimpleRequest))
    : outcome (list (option SimpleResponse) * list nat) :=
  let slices := default (default_slices result_conc) slices in
  let fallbacks := default (replicate (length slices) None) fallbacks in
  let responses := replicate (length slices) None in
  for_each (batch_body logged_setitem result_conc)
           (enumerate (zip slices fallbacks)) (responses, []).

(** The response the loop body builds from the outcome of [jsonize], when
    it builds one: an exception that is no [Exception] is raised again. *)
Definition response_of (r : outcome string) : outcome SimpleResponse :=
  match r with
  | Return json_output =>
      Return (mkSimpleResponse 200 (Some content_type_json) json_output)
  | Raise e =>
      if isinstance e [AssertionError] then Return (mkSimpleResponse 400 None (str_exn e))
      else if isinstance e [Exception] then Return (mkSimpleResponse 500 None (str_exn e))
      else Raise e
  end.

(** What one caller receives, computed from its own selector and fallback
    alone; it raises when [result_conc[s]] does and when the encoding
    raises an exception that is no [Exception]. *)
Definition caller_response (result_conc : sequence)
    (sf : option index * option SimpleResponse) : outcome (option SimpleResponse) :=
  match sf.1 with
  | None => Return sf.2
  | Some s =>
      result ← getitem result_conc s;
      r ← response_of (jsonize result);
      Return (Some r)
  end.

(** The selectors and fallbacks the loop runs on, defaults filled in. *)
Definition selectors_of (result_conc : sequence)
    (slices : option (list (option index))) : list (option index) :=
  default (default_slices result_conc) slices.

Definition fallbacks_of (result_conc : sequence)
    (slices : option (list (option index)))
    (fallbacks : option (list (option SimpleResponse))) : list (option SimpleResponse) :=
  default (replicate (length (selectors_of result_conc slices)) None) fallbacks.

(** *** to_aws_lambda_event *)

(** The truth value of [self.cors]. *)
Definition truthy (c : option string) : bool :=
  match c with
  | Some (String _ _) => true
  | _ => false
  end.

Definition cors_value (c : option string) : pyval :=
  match c with
  | Some s => PStr s
  | None => PNone
  end.

(** [to_aws_lambda_event]. *)
Definition to_aws_lambda_event (self : JsonSerializableOutput)
    (result : pyval) (event : pyval) : outcome (gmap string pyval) :=
  result ← jsonize result;
  (* Allow disabling CORS by setting it to None *)
  if truthy (cors self) then
    Return (<["statusCode" := PInt 200]>
             (<["body" := PStr result]>
               (<["headers" := PDict [(PStr "Access-Control-Allow-Origin",
                                       cors_value (cors self))]]> ∅)))
  else
    Return (<["statusCode" := PInt 200]> (<["body" := PStr result]> ∅)).

(** *** to_cli *)

(** What a call of [to_cli] does: it returns after printing [printed] to
    the standard output, argparse exits, or an exception of the
    formatting propagates. *)
Inductive cli_outcome : Type :=
  | CliPrinted (printed : string)
  | CliExit (code : Z)
  | CliRaise (e : pyexn).

Definition newline : string := String "010"%char EmptyString.

(** [to_cli]. *)
Definition to_cli (self : JsonSerializableOutput) (result : pyval)
    (args : list string) : cli_outcome :=
  let parser := Argparse.new_parser in
  let parser := Argparse.add_argument parser ["-o"; "--output"] "output"
                  "str" ["str"; "json"] in
  match Argparse.parse_args parser args with
  | Argparse.SystemExit code => CliExit code
  | Argparse.Namespace parsed_args =>
      match (if bool_decide (parsed_args !! "output" = Some "json")
             then jsonize result else py_str result) with
      | Raise e => CliRaise e
      | Return result => CliPrinted (result +:+ newline)
      end
  end.

End JsonOutput.


(** The parser of [to_cli] (lines 96-97) and the namespaces it can
    return. *)
Definition cli_parser : Argparse.ArgumentParser :=
  Argparse.add_argument Argparse.new_parser ["-o"; "--output"] "output"
    "str" ["str"; "json"].

Definition cli_action (a : Argparse.action) : Prop :=
  a = Argparse.HelpAction ∨ a = Argparse.StoreAction "output" ["str"; "json"].

Definition cli_namespace (ns : gmap string string) : Prop :=
  ns = {["output" := "str"]} ∨ ns = {["output" := "json"]}.

(** What [to_cli] prints in each of its two modes. *)
Definition cli_print (text : outcome string) : cli_outcome :=
  match text with
  | Return text => CliPrinted (text +:+ newline)
  | Raise e => CliRaise e
  end.

(** The row-major offset of the element [a[i1, ..., in]], and the item
    [v[i1]...[in]] of nested lists. *)
Fixpoint nd_offset (shape idx : list nat) : nat :=
  match shape, idx with
  | _ :: shape', i :: idx' => (i * product shape' + nd_offset shape' idx')%nat
  | _, _ => 0%nat
  end.

Fixpoint nested_get (v : pyval) (idx : list nat) : option pyval :=
  match idx with
  | [] => Some v
  | i :: idx' =>
      match v with
      | PList items => x ← items !! i; nested_get x idx'
      | _ => None
      end
  end.

(** The text of the fallback of [jsonize]: [{"result": text}]. *)
Definition result_object (text : string) : string :=
  "{" +:+ Json.encode_basestring_ascii "result" +:+ ": "
      +:+ Json.encode_basestring_ascii text +:+ "}".

(** The values that [json.loads] gives back as they are: [None],
    booleans, integers, finite floats, texts, lists, and dicts with text
    keys (distinct, as the keys of a dict are).  Tuples and the floats
    [nan], [inf] and [-inf] are not among them. *)
Definition finite_float (f : pyfloat) : bool :=
  match f with
  | FFinite _ m e => if (m =? 0)%N then e =? 0 else negb (m mod 10 =? 0)%N
  | _ => false
  end.

Definition str_key (kv : pyval * pyval) : option string :=
  match kv.1 with
  | PStr s => Some s
  | _ => None
  end.

Fixpoint json_native (o : pyval) : bool :=
  match o with
  | PNone | PBool _ | PInt _ | PStr _ => true
  | PFloat f => finite_float f
  | PList items => forallb json_native items
  | PDict entries =>
      forallb (λ kv, match kv.1 with PStr _ => json_native kv.2 | _ => false end) entries
      && bool_decide (NoDup (omap str_key entries))
  | _ => false
  end.

(** A text after which a number literal ends: it is empty or starts with a
    character that is no digit, dot or exponent mark. *)
Definition ends_number (rest : string) : bool :=
  match rest with
  | EmptyString => true
  | String c _ =>
      negb (is_digit c || Ascii.eqb c "." || Ascii.eqb c "e" || Ascii.eqb c "E")
  end.

(** The number of calls of the decoder on the text of a value. *)
Fixpoint weight (o : pyval) : nat :=
  match o with
  | PList items => S (foldr (λ x acc, S (weight x + acc)) 0%nat items)
  | PDict entries => S (foldr (λ kv acc, S (weight kv.2 + acc)) 0%nat entries)
  | _ => 1
  end.

(** [text] is read back as [v]: it starts with a character that is neither
    white space nor a closing bracket, it is at least as long as the
    decoder needs calls, and the decoder, given enough calls, reads [v]
    from it and stops where it ends. *)
Definition reads_back (v : pyval) (text : string) : Prop :=
  (∃ c t, text = String c t ∧ Json.is_ws c = false ∧ Ascii.eqb c "]" = false)
  ∧ (weight v ≤ String.length text)%nat
  ∧ ∀ fuel rest,
      (weight v ≤ fuel)%nat → ends_number rest = true →
      Json.scan_once fuel (text +:+ rest) = Return (v, rest).

(** The same for an entry of a dict, written as [key: value], and the
    pairs that the decoder collects from the entries. *)
Definition entry_reads_back (kv : pyval * pyval) (chunk : string) : Prop :=
  ∃ k vt,
    kv.1 = PStr k
    ∧ chunk = Json.encode_basestring_ascii k +:+ ": " +:+ vt
    ∧ reads_back kv.2 vt.

Definition pairs_of (entries : list (pyval * pyval)) : list (string * pyval) :=
  omap (λ kv, match kv.1 with PStr k => Some (k, kv.2) | _ => None end) entries.

(** ** The sentences of the specification that the code does not follow

    Each is stated here as the specification words it; the properties
    below refute it at a concrete input and prove what holds instead. *)

(** "Encoding never fails outwardly." *)
Definition encode_never_raises (py_str : pyval → outcome string) : Prop :=
  ∀ value, ∃ text, jsonize py_str value = Return text.




(** "The mapping contains headers whenever corsOrigin is non-null." *)
Definition headers_whenever_cors_non_null (py_str : pyval → outcome string) : Prop :=
  ∀ self result event m,
    to_aws_lambda_event py_str self result event = Return m →
    cors self ≠ None →
    m !! "headers"
    = Some (PDict [(PStr "Access-Control-Allow-Origin", cors_value (cors self))]).

(** "Every numpy value encodes as the equivalent native value, a boxed
    numeric scalar as a plain number, not an object." *)
Definition numpy_encodes_as_native (py_str : pyval → outcome string) : Prop :=
  (∀ s, jsonize py_str (PNpGeneric s) = jsonize py_str (item s)
        ∧ ∀ text, jsonize py_str (PNpGeneric s) = Return text →
                  ∀ rest, text ≠ String "{" rest)
  ∧ (∀ a, jsonize py_str (PNdarray a) = jsonize py_str (tolist a)).

(** "For every value composed only of natively JSON-representable types
    (null, boolean, number, text, ordered sequence, mapping with text
    keys), parsing encode(value) yields a value equal to the input": the
    types as the sentence lists them, every float a number and every list
    and tuple an ordered sequence. *)
Fixpoint json_types (o : pyval) : bool :=
  match o with
  | PNone | PBool _ | PInt _ | PFloat _ | PStr _ => true
  | PList items | PTuple items => forallb json_types items
  | PDict entries =>
      forallb (λ kv, match kv.1 with PStr _ => json_types kv.2 | _ => false end) entries
      && bool_decide (NoDup (omap str_key entries))
  | _ => false
  end.

Definition roundtrip_on_json_types (py_str : pyval → outcome string) : Prop :=
  ∀ value,
    json_types value = true →
    ∃ text, jsonize py_str value = Return text ∧ Json.loads text = Return value.

(** ** Data of the concrete runs *)

(** A [str] for the runs below: the [__str__] of class [Strict] fails an
    assertion, that of class [Broken] raises a [RuntimeError], that of
    class [Quit] a [KeyboardInterrupt]; an object of class [complex]
    stands for [1+2j], with the texts that Python and numpy give it,
    alone, in a list and in an array; every other object prints as its
    class name between angle brackets and every other value as the name
    of its type. *)
Definition demo_str (v : pyval) : outcome string :=
  match v with
  | PObject cls =>
      if String.eqb cls "Strict" then Raise (PyExn AssertionError "payload rejected")
      else if String.eqb cls "Broken" then Raise (PyExn (OtherError "RuntimeError") "boom")
      else if String.eqb cls "Quit" then Raise (PyExn (BaseError "KeyboardInterrupt") EmptyString)
      else if String.eqb cls "complex" then Return "(1+2j)"
      else Return ("<" +:+ cls +:+ ">")
  | PNpGeneric (NpOther _) => Return "(1+2j)"
  | PNpGeneric (NpExtended _) => Return "1.5"
  | PList [PObject _] => Return "[(1+2j)]"
  | PNdarray _ => Return "[1.+2.j]"
  | _ => Return (Json.type_name v)
  end.

Definition demo_self : JsonSerializableOutput := mkJsonSerializableOutput (Some "*").

Definition ok_response (payload : string) : option SimpleResponse :=
  Some (mkSimpleResponse 200 (Some [("Content-Type", "application/json")]) payload).

Definition demo_fallback : SimpleResponse :=
  mkSimpleResponse 400 None "bad request".

(** ** Notions the further properties are stated with *)

(** A text of printable ASCII characters only (codes 32 to 126): no line
    break, no control character, no character above 126. *)
Fixpoint printable (s : string) : bool :=
  match s with
  | EmptyString => true
  | String c s' =>
      (32 <=? N_of_ascii c)%N && (N_of_ascii c <=? 126)%N && printable s'
  end.

(** The value with every numpy scalar and array that it holds, at any
    depth of its lists, tuples and dict values, replaced by what
    [NumpyJsonEncoder.default] converts it to. *)
Fixpoint unbox (o : pyval) : pyval :=
  match o with
  | PList items => PList (map unbox items)
  | PTuple items => PTuple (map unbox items)
  | PDict entries => PDict (map (λ kv, (kv.1, unbox kv.2)) entries)
  | PNpGeneric s => item s
  | PNdarray a => tolist a
  | _ => o
  end.

(** The keys [json.dumps] accepts, and the dict with every key replaced by
    the text that [json.dumps] writes for it. *)
Definition basic_key (k : pyval) : bool :=
  match Json.key_str k with
  | Return _ => true
  | Raise _ => false
  end.

Definition key_text (k : pyval) : string :=
  match Json.key_str k with
  | Return s => s
  | Raise _ => EmptyString
  end.

Definition text_keys (entries : list (pyval * pyval)) : list (pyval * pyval) :=
  map (λ kv, (PStr (key_text kv.1), kv.2)) entries.

(** A value the encoder writes without any hook: [None], booleans,
    integers, floats, texts, lists, tuples, and dicts whose keys are
    accepted. *)
Fixpoint plain (o : pyval) : bool :=
  match o with
  | PNone | PBool _ | PInt _ | PFloat _ | PStr _ => true
  | PList items | PTuple items => forallb plain items
  | PDict entries => forallb (λ kv, basic_key kv.1 && plain kv.2) entries
  | _ => false
  end.

(** A value that still holds a numpy scalar or array. *)
Fixpoint holds_numpy (o : pyval) : bool :=
  match o with
  | PList items | PTuple items => existsb holds_numpy items
  | PDict entries => existsb (λ kv, holds_numpy kv.2) entries
  | PNpGeneric _ | PNdarray _ => true
  | _ => false
  end.

(** The dicts whose keys are written as pairwise distinct texts. *)
Definition distinct_key_texts (entries : list (pyval * pyval)) : bool :=
  bool_decide (NoDup (map (λ kv, key_text kv.1) entries)).

(** The encoding of [result] returns, or raises an exception that derives
    from [Exception]. *)
Definition contained (py_str : pyval → outcome string) (result : pyval) : Prop :=
  ∀ e, jsonize py_str result = Raise e → isinstance e [Exception] = true.

(** A [str] whose exceptions all derive from [Exception]. *)
Definition raises_exceptions_only (py_str : pyval → outcome string) : Prop :=
  ∀ v e, py_str v = Raise e → isinstance e [Exception] = true.

(** Nested lists with the extents [shape], of native numbers. *)
Fixpoint has_shape (shape : list nat) (v : pyval) : bool :=
  match shape with
  | [] => match v with PBool _ | PInt _ | PFloat _ => true | _ => false end
  | n :: shape' =>
      match v with
      | PList items => (length items =? n)%nat && forallb (has_shape shape') items
      | _ => false
      end
  end.


(** The argument list that gives the option once per pair, as
    [flag value]. *)
Definition option_args (pairs : list (string * string)) : list string :=
  flat_map (λ fv, [fv.1; fv.2]) pairs.

(** An argument string that does not start with a dash. *)
Definition no_dash (arg : string) : bool :=
  match arg with
  | String c _ => negb (Ascii.eqb c "-")
  | EmptyString => true
  end.

(** * Properties *)

Lemma outcome_bind_return {A B} (f : A → outcome B) (a : A) :
  (Return a ≫= f) = f a.
Proof. reflexivity. Qed.

Lemma outcome_bind_raise {A B} (f : A → outcome B) (e : pyexn) :
  (Raise e ≫= f) = Raise e.
Proof. reflexivity. Qed.

#[local] Arguments batch_body : simpl never.
#[local] Arguments caller_response : simpl never.
#[local] Arguments isinstance : simpl never.

Section BatchLoop.

Variable py_str : pyval → outcome string.
Variable result_conc : sequence.

Abbreviation body := (batch_body py_str list_setitem result_conc).
Abbreviation body_logged := (batch_body py_str logged_setitem result_conc).
Abbreviation respond := (caller_response py_str result_conc).

(** One iteration assigns the caller's own response at its position. *)
Lemma batch_body_assign i sf responses :
  (i < length responses)%nat →
  body (i, sf) responses = r ← respond sf; Return (<[i := r]> responses).
Proof.
  intros Hi. destruct sf as [[s|] f]; unfold batch_body, caller_response, list_setitem;
    simpl; apply Nat.ltb_lt in Hi; rewrite ?Hi; [|done].
  destruct (getitem result_conc s) as [result|e]; [|done]. simpl.
  unfold response_of. destruct (jsonize py_str result) as [t|e]; simpl; rewrite ?Hi; [done|].
  destruct (isinstance e [AssertionError]); simpl; [done|].
  by destruct (isinstance e [Exception]).
Qed.

Lemma batch_body_logged_assign i sf responses log :
  (i < length responses)%nat →
  body_logged (i, sf) (responses, log)
  = r ← respond sf; Return (<[i := r]> responses, log ++ [i]).
Proof.
  intros Hi. destruct sf as [[s|] f];
    unfold batch_body, caller_response, logged_setitem, list_setitem;
    simpl; apply Nat.ltb_lt in Hi; rewrite ?Hi; [|done].
  destruct (getitem result_conc s) as [result|e]; [|done]. simpl.
  unfold response_of. destruct (jsonize py_str result) as [t|e]; simpl; rewrite ?Hi; [done|].
  destruct (isinstance e [AssertionError]); simpl; rewrite ?Hi; [done|].
  destruct (isinstance e [Exception]); simpl; rewrite ?Hi; done.
Qed.

(** The loop from position [k] on: the responses of the callers, computed
    one by one, replace the positions [k], [k+1], ... in this order. *)
Lemma batch_loop_logged zs : ∀ k responses log,
  (k + length zs ≤ length responses)%nat →
  for_each body_logged (zip (seq k (length zs)) zs) (responses, log)
  = news ← outcome_mapM respond zs;
    Return (take k responses ++ news ++ drop (k + length zs) responses,
            log ++ seq k (length zs)).
Proof.
  induction zs as [|sf zs IH]; intros k responses log Hk; simpl.
  - rewrite Nat.add_0_r, take_drop, app_nil_r. done.
  - simpl in Hk. rewrite batch_body_logged_assign by lia.
    destruct (respond sf) as [r|e]; [|done]. simpl.
    rewrite IH by (rewrite length_insert; lia).
    destruct (outcome_mapM respond zs) as [news|e]; [|done]. simpl.
    f_equal. f_equal.
    + rewrite drop_insert_lt by lia.
      replace (S k + length zs)%nat with (k + S (length zs))%nat by lia.
      rewrite (take_S_r _ _ r) by (apply list_lookup_insert_eq; lia).
      rewrite take_insert_ge by lia. rewrite <- app_assoc. simpl.
      replace (S (k + length zs))%nat with (k + S (length zs))%nat by lia. done.
    + rewrite <- app_assoc. done.
Qed.

(** The log is a ghost: erasing it gives the loop of [to_batch_response]. *)
Lemma batch_loop_erase l : ∀ responses log,
  for_each body l responses
  = st ← for_each body_logged l (responses, log); Return st.1.
Proof.
  induction l as [|[i sf] l IH]; intros responses log; simpl; [done|].
  destruct (decide (i < length responses)%nat) as [Hi|Hi].
  - rewrite batch_body_assign, batch_body_logged_assign by done.
    destruct (respond sf) as [r|e]; [|done]. simpl. apply IH.
  - assert (Hlt : (i <? length responses)%nat = false) by (apply Nat.ltb_ge; lia).
    destruct sf as [[s|] f]; unfold batch_body, logged_setitem, list_setitem; simpl;
      rewrite ?Hlt; [|done].
    destruct (getitem result_conc s) as [result|e]; [|done]. simpl.
    destruct (jsonize py_str result) as [t|e]; simpl; rewrite ?Hlt; simpl.
    + rewrite ?Hlt. done.
    + destruct (isinstance e [AssertionError]); simpl; rewrite ?Hlt; [done|].
      destruct (isinstance e [Exception]); simpl; rewrite ?Hlt; done.
Qed.

End BatchLoop.

(** ** The traversal [outcome_mapM] *)

Lemma mapM_Return_lookup {A B} (f : A → outcome B) (l : list A) : ∀ news,
  outcome_mapM f l = Return news →
  length news = length l
  ∧ ∀ i x, l !! i = Some x → ∃ y, f x = Return y ∧ news !! i = Some y.
Proof.
  induction l as [|a l IH]; intros news; simpl.
  - intros [= <-]. split; [done|]. intros i x Hx. by rewrite lookup_nil in Hx.
  - destruct (f a) as [b|e] eqn:Hfa; simpl; [|done].
    destruct (outcome_mapM f l) as [bs|e]; simpl; [|done].
    intros [= <-]. destruct (IH bs eq_refl) as [Hlen Hall]. split; [simpl; lia|].
    intros [|i] x; simpl.
    + intros [= <-]. eauto.
    + apply Hall.
Qed.

Lemma mapM_total {A B} (f : A → outcome B) (l : list A) :
  (∀ i x, l !! i = Some x → ∃ y, f x = Return y) →
  ∃ news, outcome_mapM f l = Return news.
Proof.
  induction l as [|a l IH]; intros Hall; simpl; [eauto|].
  destruct (Hall 0%nat a eq_refl) as [b ->]. simpl.
  destruct IH as [bs ->]; [|simpl; eauto].
  intros i x Hx. apply (Hall (S i) x Hx).
Qed.

Lemma mapM_Raise_lookup {A B} (f : A → outcome B) (l : list A) (i : nat) (x : A) e :
  l !! i = Some x → f x = Raise e →
  ∃ e', outcome_mapM f l = Raise e'.
Proof.
  revert i. induction l as [|a l IH]; intros i Hx Hf; [by rewrite lookup_nil in Hx|].
  simpl. destruct i as [|i]; simpl in Hx.
  - injection Hx as ->. rewrite Hf. simpl. eauto.
  - destruct (f a); simpl; [|eauto].
    destruct (IH i Hx Hf) as [e' ->]. simpl. eauto.
Qed.

(** ** to_batch_response, as a whole *)

Section Batch.

Variable py_str : pyval → outcome string.
Variable self : JsonSerializableOutput.
Variable result_conc : sequence.
Variable slices : option (list (option index)).
Variable fallbacks : option (list (option SimpleResponse)).
Variable requests : option (list SimpleRequest).

Abbreviation ss := (selectors_of result_conc slices).
Abbreviation fs := (fallbacks_of result_conc slices fallbacks).
Abbreviation respond := (caller_response py_str result_conc).

(** The call computes the callers' responses one by one, in order, stops at
    the first one that raises, and leaves the initial [None] at the
    positions that [zip] cuts off. *)
Lemma to_batch_response_logged_eq :
  to_batch_response_logged py_str self result_conc slices fallbacks requests
  = news ← outcome_mapM respond (zip ss fs);
    Return (news ++ replicate (length ss - length (zip ss fs)) None,
            seq 0 (length (zip ss fs))).
Proof.
  unfold to_batch_response_logged, enumerate.
  fold ss. fold fs.
  rewrite batch_loop_logged; [|rewrite length_replicate, length_zip; simpl; lia].
  destruct (outcome_mapM respond (zip ss fs)) as [news|e]; [|done]. simpl.
  by rewrite drop_replicate.
Qed.

Lemma to_batch_response_eq :
  to_batch_response py_str self result_conc slices fallbacks requests
  = news ← outcome_mapM respond (zip ss fs);
    Return (news ++ replicate (length ss - length (zip ss fs)) None).
Proof.
  unfold to_batch_response.
  rewrite (batch_loop_erase _ _ _ _ []).
  pose proof to_batch_response_logged_eq as Hlog.
  unfold to_batch_response_logged in Hlog. rewrite Hlog.
  by destruct (outcome_mapM respond (zip ss fs)).
Qed.

(** Position [i] of the output, for a caller the loop reaches. *)
Lemma to_batch_response_lookup out i s f :
  to_batch_response py_str self result_conc slices fallbacks requests = Return out →
  ss !! i = Some s → fs !! i = Some f →
  ∃ r, respond (s, f) = Return r ∧ out !! i = Some r.
Proof.
  rewrite to_batch_response_eq. intros Hout Hs Hf.
  destruct (outcome_mapM respond (zip ss fs)) as [news|e] eqn:Hnews; [|done].
  injection Hout as <-.
  destruct (mapM_Return_lookup _ _ _ Hnews) as [Hlen Hall].
  destruct (Hall i (s, f)) as (r & Hr & Hi).
  { apply lookup_zip_Some. done. }
  exists r. split; [done|]. by rewrite lookup_app_l by (by eapply lookup_lt_Some).
Qed.

End Batch.

(** ** Selectors *)






(** ** Exceptions that the loop lets through *)




(** ** Properties of to_batch_response *)



(** C10. Two calls of [to_batch_response] that agree on the result
    collection, the selectors and the fallbacks return the same outcome,
    whatever their [requests] arguments are: [requests] has no effect. *)
Theorem to_batch_response_ignores_requests
    (py_str : pyval → outcome string) (self : JsonSerializableOutput)
    (result_conc : sequence) (slices : option (list (option index)))
    (fallbacks : option (list (option SimpleResponse)))
    (requests1 requests2 : option (list SimpleRequest)) :
  to_batch_response py_str self result_conc slices fallbacks requests1
  = to_batch_response py_str self result_conc slices fallbacks requests2.
Proof. reflexivity. Qed.

(** C4. For every caller [i] of a call that returns [out]: when the
    selector of [i] is [None], [out[i]] is the fallback of [i] as it is;
    otherwise, when [jsonize] of the selected result returns [payload],
    [out[i]] is the response with status 200, the one header pair
    [Content-Type: application/json] and body [payload]. *)
Theorem assemble_fallback_or_encoded
    (py_str : pyval → outcome string) (self : JsonSerializableOutput)
    (result_conc : sequence) (slices : option (list (option index)))
    (fallbacks : option (list (option SimpleResponse)))
    (requests : option (list SimpleRequest))
    (out : list (option SimpleResponse)) (i : nat)
    (s : option index) (f : option SimpleResponse) :
  to_batch_response py_str self result_conc slices fallbacks requests = Return out →
  selectors_of result_conc slices !! i = Some s →
  fallbacks_of result_conc slices fallbacks !! i = Some f →
  match s with
  | None => out !! i = Some f
  | Some ix =>
      ∀ result payload,
        getitem result_conc ix = Return result →
        jsonize py_str result = Return payload →
        out !! i
        = Some (Some (mkSimpleResponse 200 (Some [("Content-Type", "application/json")])
                        payload))
  end.
Proof.
  intros Hout Hs Hf.
  destruct (to_batch_response_lookup _ _ _ _ _ _ _ _ _ _ Hout Hs Hf) as (r & Hr & Hi).
  unfold caller_response in Hr. simpl in Hr. destruct s as [ix|].
  - intros result payload Hget Hjson. rewrite Hget in Hr. simpl in Hr.
    rewrite Hjson in Hr. simpl in Hr. by injection Hr as <-.
  - by injection Hr as <-.
Qed.

Lemma assemble_fallback_or_encoded_witness :
  let out := [ok_response "1"; Some demo_fallback; ok_response "[2, 3]"] in
  to_batch_response demo_str demo_self (ListOf [PInt 1; PList [PInt 2; PInt 3]])
    (Some [Some (Index 0); None; Some (Index 1)])
    (Some [None; Some demo_fallback; None]) None
  = Return out
  ∧ out !! 1%nat = Some (Some demo_fallback)
  ∧ out !! 2%nat = Some (ok_response "[2, 3]").
Proof.
  split; [reflexivity|]. split.
  - exact (assemble_fallback_or_encoded demo_str demo_self
             (ListOf [PInt 1; PList [PInt 2; PInt 3]])
             (Some [Some (Index 0); None; Some (Index 1)])
             (Some [None; Some demo_fallback; None]) None
             [ok_response "1"; Some demo_fallback; ok_response "[2, 3]"]
             1 None (Some demo_fallback) eq_refl eq_refl eq_refl).
  - exact (assemble_fallback_or_encoded demo_str demo_self
             (ListOf [PInt 1; PList [PInt 2; PInt 3]])
             (Some [Some (Index 0); None; Some (Index 1)])
             (Some [None; Some demo_fallback; None]) None
             [ok_response "1"; Some demo_fallback; ok_response "[2, 3]"]
             2 (Some (Index 1)) None eq_refl eq_refl eq_refl
             (PList [PInt 2; PInt 3]) "[2, 3]" eq_refl eq_refl).
Defined.










(** ** to_aws_lambda_event *)

(** C6, as the specification states it, fails: [if self.cors] tests the
    truth value, so the empty text, which is not null, gives no [headers]
    key either. *)
Lemma empty_cors_omits_headers :
  to_aws_lambda_event demo_str (mkJsonSerializableOutput (Some EmptyString))
    (PInt 1) PNone
  = Return (<["statusCode" := PInt 200]> (<["body" := PStr "1"]> ∅))
  ∧ ¬ headers_whenever_cors_non_null demo_str.
Proof.
  split; [reflexivity|].
  intros H.
  specialize (H (mkJsonSerializableOutput (Some EmptyString)) (PInt 1) PNone _ eq_refl).
  simpl in H. discriminate H; done.
Qed.

(** C6, amended. For every result on which [jsonize] returns [body] and
    every cors configuration, [to_aws_lambda_event] returns a mapping with
    [statusCode] 200 and [body] the encoded text and no key besides
    [statusCode], [body] and [headers]; it has
    [headers = {"Access-Control-Allow-Origin": cors}] when [cors] is a
    non-empty text, and no [headers] key at all when [cors] is null or the
    empty text. *)
Theorem lambda_event_payload
    (py_str : pyval → outcome string) (self : JsonSerializableOutput)
    (result event : pyval) (body : string) :
  jsonize py_str result = Return body →
  ∃ m,
    to_aws_lambda_event py_str self result event = Return m
    ∧ m !! "statusCode" = Some (PInt 200)
    ∧ m !! "body" = Some (PStr body)
    ∧ (∀ k, is_Some (m !! k) → k = "statusCode" ∨ k = "body" ∨ k = "headers")
    ∧ match cors self with
      | Some (String c origin) =>
          m !! "headers"
          = Some (PDict [(PStr "Access-Control-Allow-Origin", PStr (String c origin))])
      | _ => m !! "headers" = None
      end.
Proof.
  intros Hbody. unfold to_aws_lambda_event. rewrite Hbody. simpl.
  destruct (cors self) as [[|c origin]|]; simpl; eexists; (split; [reflexivity|]);
    repeat split; try done;
    intros k [v Hk]; repeat (apply lookup_insert_Some in Hk as [[<- _]|[_ Hk]]; [auto|]);
    by rewrite lookup_empty in Hk.
Qed.

Lemma lambda_event_payload_witness :
  ∃ m,
    to_aws_lambda_event demo_str demo_self (PDict [(PStr "x", PInt 1)]) PNone = Return m
    ∧ m !! "headers" = Some (PDict [(PStr "Access-Control-Allow-Origin", PStr "*")]).
Proof.
  destruct (lambda_event_payload demo_str demo_self (PDict [(PStr "x", PInt 1)]) PNone
              (String "{" (String dquote (String "x" (String dquote ": 1}")))) eq_refl)
    as (m & Hm & _ & _ & _ & Hh).
  exists m. split; [exact Hm|exact Hh].
Defined.

(** ** to_cli *)

Lemma lookup_action_elem reg s a :
  Argparse.lookup_action reg s = Some a → ∃ o, (o, a) ∈ reg.
Proof.
  induction reg as [|[o a'] reg IH]; simpl; [done|].
  destruct (String.eqb o s).
  - intros [= ->]. exists o. left.
  - intros [o' Ho']%IH. exists o'. by right.
Qed.

Lemma get_option_tuples_elem reg arg t :
  t ∈ Argparse.get_option_tuples reg arg →
  ∃ a o e, t = Argparse.Optional a o e ∧ ∃ o', (o', a) ∈ reg.
Proof.
  unfold Argparse.get_option_tuples.
  repeat case_match; try (by intros ?%elem_of_nil);
    intros [[? ?] [? Hf]]%list_elem_of_omap; simpl in Hf;
    repeat case_match; simplify_eq; eauto 10.
Qed.

Lemma parse_optional_elem reg arg a o e :
  Argparse.parse_optional reg arg = Argparse.Optional a o e → ∃ o', (o', a) ∈ reg.
Proof.
  unfold Argparse.parse_optional.
  repeat case_match; intros; simplify_eq;
    try (by eapply lookup_action_elem).
  all: match goal with
  | H : Argparse.get_option_tuples _ ?x = [_] |- _ =>
      destruct (get_option_tuples_elem reg x (Argparse.Optional a o e))
        as (a' & o' & e' & Heq & Hin); [rewrite H; left|]; by simplify_eq
  end.
Qed.

Section CliParser.

Variable reg : list (string * Argparse.action).
Variable P : Argparse.action → Prop.
Hypothesis reg_P : ∀ o a, (o, a) ∈ reg → P a.

Lemma consume_plain_queue a next queue taken :
  P a → Argparse.consume_plain reg a next = Some (queue, taken) →
  Forall (λ av, P av.1) queue.
Proof.
  unfold Argparse.consume_plain. intros Ha.
  repeat case_match; intros; simplify_eq; by repeat constructor.
Qed.

Lemma consume_explicit_queue e : ∀ a os next queue taken,
  P a → Argparse.consume_explicit reg a os e next = Some (queue, taken) →
  Forall (λ av, P av.1) queue.
Proof.
  induction e as [|c e IH]; intros a os next queue taken Ha; destruct a; simpl;
    try (intros; simplify_eq; by repeat constructor).
  destruct (Argparse.is_short os); [|done].
  destruct (Argparse.lookup_action reg _) as [a'|] eqn:Ha'; [|done].
  apply lookup_action_elem in Ha' as [o' Ho']. apply reg_P in Ho'.
  destruct e as [|c' e'].
  - destruct (Argparse.consume_plain reg a' next) as [[q t]|] eqn:Hq; [|done].
    intros [= <- <-]. constructor; [done|]. by eapply consume_plain_queue.
  - destruct (Argparse.consume_explicit reg a' _ (String c' e') next)
      as [[q t]|] eqn:Hq; [|done].
    intros [= <- <-]. constructor; [done|]. by eapply IH.
Qed.

End CliParser.

Lemma cli_parser_actions o a :
  (o, a) ∈ Argparse.option_string_actions cli_parser → cli_action a.
Proof.
  unfold cli_action. simpl.
  rewrite !elem_of_cons, elem_of_nil. intros [|[|[|[|[]]]]]; simplify_eq; auto.
Qed.

Lemma take_actions_namespace queue : ∀ ns ns',
  Forall (λ av, cli_action av.1) queue → cli_namespace ns →
  Argparse.take_actions queue ns = Argparse.Namespace ns' → cli_namespace ns'.
Proof.
  induction queue as [|[a v] queue IH]; intros ns ns' Hq Hns; simpl.
  - by intros [= <-].
  - apply Forall_cons in Hq as [Ha Hq]. simpl in Ha.
    destruct Ha as [-> | ->]; simpl; [done|].
    destruct (String.eqb v "str") eqn:Hstr; simpl.
    + apply String.eqb_eq in Hstr as ->. apply IH; [done|].
      left. destruct Hns as [-> | ->]; apply insert_singleton_eq.
    + destruct (String.eqb v "json") eqn:Hjson; simpl; [|done].
      apply String.eqb_eq in Hjson as ->. apply IH; [done|].
      right. destruct Hns as [-> | ->]; apply insert_singleton_eq.
Qed.

(** Whatever the arguments, a namespace that [parse_args] returns holds
    [output] and nothing else, with one of the two choices. *)
Lemma parse_loop_namespace n : ∀ args ns extras ns',
  (length args ≤ n)%nat → cli_namespace ns →
  Argparse.parse_loop (Argparse.option_string_actions cli_parser) args ns extras
  = Argparse.Namespace ns' →
  cli_namespace ns'.
Proof.
  induction n as [|n IH]; intros args ns extras ns' Hlen Hns;
    (destruct args as [|arg rest]; [simpl; by destruct extras; intros; simplify_eq|]);
    simpl in Hlen; [lia|].
  cbn [Argparse.parse_loop].
  destruct (String.eqb arg "--"); [done|].
  destruct (Argparse.parse_optional _ arg) as [| | |a os explicit] eqn:Hopt;
    [apply IH; [lia|done] | apply IH; [lia|done] | done |].
  apply parse_optional_elem in Hopt as [o' Ha%cli_parser_actions].
  match goal with
  | |- match ?c with _ => _ end = _ → _ => destruct c as [[queue taken]|] eqn:Hq; [|done]
  end.
  assert (Forall (λ av, cli_action av.1) queue) as Hqueue.
  { destruct explicit as [e|].
    - eapply consume_explicit_queue; [apply cli_parser_actions|exact Ha|exact Hq].
    - eapply consume_plain_queue; [exact Ha|exact Hq]. }
  destruct (Argparse.take_actions queue ns) as [ns1|code] eqn:Hact; [|done].
  apply take_actions_namespace in Hact; [|done..].
  destruct taken; [destruct rest as [|v rest']; [done|]|];
    apply IH; simpl in *; (lia || done).
Qed.

Lemma to_cli_eq py_str self result args :
  to_cli py_str self result args
  = match Argparse.parse_args cli_parser args with
    | Argparse.SystemExit code => CliExit code
    | Argparse.Namespace ns =>
        cli_print (if bool_decide (ns !! "output" = Some "json")
                   then jsonize py_str result else py_str result)
    end.
Proof. reflexivity. Qed.

Lemma parse_args_value flag v :
  flag ∈ ["-o"; "--output"] →
  Argparse.parse_args cli_parser [flag; v]
  = if Argparse.is_argument (Argparse.option_string_actions cli_parser) v
       && existsb (String.eqb v) ["str"; "json"]
    then Argparse.Namespace {["output" := v]}
    else Argparse.SystemExit 2.
Proof.
  rewrite !elem_of_cons, elem_of_nil. intros [-> | [-> | []]];
    unfold Argparse.parse_args; cbn [Argparse.parse_loop];
    match goal with |- context [String.eqb ?a "--"] =>
      change (String.eqb a "--") with false end;
    match goal with |- context [Argparse.parse_optional ?r ?a] =>
      let t := eval vm_compute in (Argparse.parse_optional r a) in
      change (Argparse.parse_optional r a) with t end;
    cbn [Argparse.consume_plain head];
    destruct (Argparse.is_argument _ v); cbn [andb]; try done;
    cbn [Argparse.take_actions];
    destruct (existsb (String.eqb v) ["str"; "json"]); try done;
    cbn [Argparse.parse_loop Argparse.defaults cli_parser Argparse.add_argument
         Argparse.new_parser];
    by rewrite insert_insert_eq, insert_empty.
Qed.

(** C9. For every result, [to_cli] declares one option, [-o]/[--output],
    with the choices [str] (the default) and [json]: with [json] it prints
    [jsonize(result)] to the standard output, with [str] or without
    arguments it prints [str(result)], and any other value of the option is
    a usage error ([SystemExit] with status 2) that ends the call before
    anything is printed.  Whatever the arguments, a call that does not exit
    prints in one of these two modes. *)
Theorem to_cli_output_modes
    (py_str : pyval → outcome string) (self : JsonSerializableOutput)
    (result : pyval) :
  Argparse.option_string_actions cli_parser
  = [("-h", Argparse.HelpAction); ("--help", Argparse.HelpAction);
     ("-o", Argparse.StoreAction "output" ["str"; "json"]);
     ("--output", Argparse.StoreAction "output" ["str"; "json"])]
  ∧ to_cli py_str self result [] = cli_print (py_str result)
  ∧ (∀ flag, flag ∈ ["-o"; "--output"] →
       to_cli py_str self result [flag; "json"] = cli_print (jsonize py_str result)
       ∧ to_cli py_str self result [flag; "str"] = cli_print (py_str result)
       ∧ ∀ v, v ≠ "str" → v ≠ "json" →
              to_cli py_str self result [flag; v] = CliExit 2)
  ∧ (∀ args,
       (∃ code, to_cli py_str self result args = CliExit code)
       ∨ to_cli py_str self result args = cli_print (jsonize py_str result)
       ∨ to_cli py_str self result args = cli_print (py_str result)).
Proof.
  split; [reflexivity|]. split; [reflexivity|]. split.
  - intros flag Hflag. rewrite !to_cli_eq, !parse_args_value by done.
    split; [reflexivity|]. split; [reflexivity|].
    intros v Hstr Hjson. rewrite to_cli_eq, parse_args_value by done.
    replace (existsb (String.eqb v) ["str"; "json"]) with false.
    + by rewrite andb_false_r.
    + simpl. symmetry. rewrite orb_false_r. apply orb_false_intro;
        by apply String.eqb_neq.
  - intros args. rewrite to_cli_eq.
    destruct (Argparse.parse_args cli_parser args) as [ns|code] eqn:Hargs; [|eauto].
    right. apply (parse_loop_namespace (length args)) in Hargs; [|done|by left].
    destruct Hargs as [-> | ->]; [right|left]; reflexivity.
Qed.

Lemma to_cli_output_modes_witness :
  to_cli demo_str demo_self (PDict [(PStr "x", PInt 1)]) ["--output"; "json"]
  = cli_print (jsonize demo_str (PDict [(PStr "x", PInt 1)]))
  ∧ to_cli demo_str demo_self (PDict [(PStr "x", PInt 1)]) ["-o"; "xml"] = CliExit 2.
Proof.
  destruct (to_cli_output_modes demo_str demo_self (PDict [(PStr "x", PInt 1)]))
    as (_ & _ & Hflag & _).
  split.
  - apply (Hflag "--output"). by right; left.
  - apply (Hflag "-o"); [by left|done..].
Defined.

(** ** The encoder *)

Lemma mapM_ext {A B} (f g : A → outcome B) (l : list A) :
  (∀ x, x ∈ l → f x = g x) → outcome_mapM f l = outcome_mapM g l.
Proof.
  induction l as [|a l IH]; intros Hfg; simpl; [done|].
  rewrite (Hfg a) by left. rewrite IH; [done|].
  intros x Hx. apply Hfg. by right.
Qed.

Lemma depth_pos o : (1 ≤ Json.depth o)%nat.
Proof. destruct o; simpl; lia. Qed.

Lemma depth_item_le (x : pyval) (items : list pyval) :
  x ∈ items → (Json.depth x ≤ foldr (λ y, Nat.max (Json.depth y)) 0 items)%nat.
Proof.
  induction items as [|y items IH]; [by intros ?%elem_of_nil|].
  simpl. intros [-> | Hx%IH]%elem_of_cons; lia.
Qed.

Lemma depth_entry_le (kv : pyval * pyval) (entries : list (pyval * pyval)) :
  kv ∈ entries →
  (Json.depth kv.2 ≤ foldr (λ y, Nat.max (Json.depth y.2)) 0 entries)%nat.
Proof.
  induction entries as [|y entries IH]; [by intros ?%elem_of_nil|].
  simpl. intros [-> | Hx%IH]%elem_of_cons; lia.
Qed.

Lemma depth_tolist_rec shape : ∀ elems,
  (Json.depth (tolist_rec shape elems) ≤ S (S (length shape)))%nat.
Proof.
  induction shape as [|n shape IH]; intros elems; simpl.
  - destruct elems as [|[] ?]; simpl; lia.
  - apply le_n_S. generalize (seq 0 n). intros l.
    induction l as [|k l IHl]; simpl; [lia|].
    specialize (IH (take (product shape) (drop (k * product shape) elems))). lia.
Qed.

Lemma shrinking_NumpyJsonEncoder_default : shrinking NumpyJsonEncoder_default.
Proof.
  intros o o'. destruct o; simpl; try done; intros [= <-].
  - destruct s; simpl; auto.
  - left. unfold tolist. pose proof (depth_tolist_rec (nd_shape a) (nd_data a)). lia.
Qed.

Lemma shrinking_JSONEncoder_default : shrinking Json.JSONEncoder_default.
Proof. intros o o'. done. Qed.

(** A value that the hook returns as it is: the encoder calls the hook on
    it again and again, until the recursion is stopped. *)
Lemma iterencode_loop d o :
  d o = Return o →
  match o with PNpGeneric _ | PNdarray _ | PObject _ => True | _ => False end →
  ∀ fuel, Json.iterencode d fuel o
          = Raise (PyExn RecursionError "maximum recursion depth exceeded").
Proof.
  intros Hd Ho fuel. induction fuel as [|fuel IH]; [done|].
  destruct o; try done; cbn [Json.iterencode]; rewrite Hd; exact IH.
Qed.

(** With a shrinking hook, the recursion never reaches the bound: any two
    bounds above the depth of the value give the same outcome. *)
Lemma iterencode_fuel d : shrinking d → ∀ fuel1 fuel2 o,
  (Json.depth o ≤ fuel1)%nat → (Json.depth o ≤ fuel2)%nat →
  Json.iterencode d fuel1 o = Json.iterencode d fuel2 o.
Proof.
  intros Hd. induction fuel1 as [|fuel1 IH]; intros fuel2 o H1 H2.
  { pose proof (depth_pos o). lia. }
  destruct fuel2 as [|fuel2]; [pose proof (depth_pos o); lia|].
  assert (Hhook : ∀ o, (Json.depth o ≤ S fuel1)%nat → (Json.depth o ≤ S fuel2)%nat →
    match o with PNpGeneric _ | PNdarray _ | PObject _ => True | _ => False end →
    (o' ← d o; Json.iterencode d fuel1 o') = (o' ← d o; Json.iterencode d fuel2 o')).
  { intros o0 H1' H2' Ho0. destruct (d o0) as [o'|e] eqn:Ho'; [|done]. simpl.
    destruct (Hd _ _ Ho') as [Hlt | ->]; [apply IH; lia|].
    by rewrite !(iterencode_loop d o0 Ho' Ho0). }
  destruct o; simpl; try done; try (by apply Hhook).
  - rewrite (mapM_ext (Json.iterencode d fuel1) (Json.iterencode d fuel2)); [done|].
    intros x Hx%depth_item_le. simpl in H1, H2. apply IH; lia.
  - rewrite (mapM_ext (Json.iterencode d fuel1) (Json.iterencode d fuel2)); [done|].
    intros x Hx%depth_item_le. simpl in H1, H2. apply IH; lia.
  - f_equal. apply mapM_ext.
    intros kv Hkv%depth_entry_le. simpl in H1, H2.
    destruct (Json.key_str kv.1); [|done]. simpl.
    rewrite (IH fuel2); [done|lia..].
Qed.

Lemma iterencode_dumps d fuel o :
  shrinking d → (Json.depth o ≤ fuel)%nat →
  Json.iterencode d fuel o = Json.dumps d o.
Proof. intros Hd Hfuel. apply iterencode_fuel; [done|lia..]. Qed.

(** The equations of [dumps], free of the bound. *)
Lemma dumps_list d items :
  shrinking d →
  Json.dumps d (PList items)
  = chunks ← outcome_mapM (Json.dumps d) items;
    Return ("[" +:+ join ", " chunks +:+ "]").
Proof.
  intros Hd. unfold Json.dumps at 1. cbn [Json.iterencode].
  rewrite (mapM_ext _ (Json.dumps d)); [done|].
  intros x Hx%depth_item_le. apply iterencode_dumps; [done|simpl; lia].
Qed.

Lemma dumps_tuple d items :
  shrinking d →
  Json.dumps d (PTuple items)
  = chunks ← outcome_mapM (Json.dumps d) items;
    Return ("[" +:+ join ", " chunks +:+ "]").
Proof.
  intros Hd. unfold Json.dumps at 1. cbn [Json.iterencode].
  rewrite (mapM_ext _ (Json.dumps d)); [done|].
  intros x Hx%depth_item_le. apply iterencode_dumps; [done|simpl; lia].
Qed.

Lemma dumps_dict d entries :
  shrinking d →
  Json.dumps d (PDict entries)
  = chunks ← outcome_mapM
               (λ kv, k ← Json.key_str kv.1;
                      v ← Json.dumps d kv.2;
                      Return (Json.encode_basestring_ascii k +:+ ": " +:+ v))
               entries;
    Return ("{" +:+ join ", " chunks +:+ "}").
Proof.
  intros Hd. unfold Json.dumps at 1. cbn [Json.iterencode].
  f_equal. apply mapM_ext.
  intros kv Hkv%depth_entry_le. destruct (Json.key_str kv.1); [|done].
  cbn [mbind outcome_mbind outcome_bind].
  rewrite iterencode_dumps; [done|done|simpl; lia].
Qed.

(** A numpy value is encoded as what the hook converts it to. *)
Lemma dumps_np_generic s :
  Json.dumps NumpyJsonEncoder_default (PNpGeneric s)
  = Json.dumps NumpyJsonEncoder_default (item s).
Proof. by destruct s. Qed.

(** A numpy scalar whose [item()] is a numpy scalar again is never
    encoded: the recursion of the hook ends in a [RecursionError]. *)
Lemma dumps_extended (name : string) :
  Json.dumps NumpyJsonEncoder_default (PNpGeneric (NpExtended name))
  = Raise (PyExn RecursionError "maximum recursion depth exceeded").
Proof. reflexivity. Qed.

Lemma dumps_ndarray a :
  Json.dumps NumpyJsonEncoder_default (PNdarray a)
  = Json.dumps NumpyJsonEncoder_default (tolist a).
Proof.
  unfold Json.dumps at 1.
  change (Json.iterencode NumpyJsonEncoder_default (S (Json.depth (PNdarray a)))
            (PNdarray a))
    with (Json.iterencode NumpyJsonEncoder_default (S (S (S (length (nd_shape a)))))
            (tolist a)).
  apply iterencode_dumps; [apply shrinking_NumpyJsonEncoder_default|].
  pose proof (depth_tolist_rec (nd_shape a) (nd_data a)). unfold tolist. lia.
Qed.

(** Induction on values, through the lists they nest. *)
Lemma pyval_nested_ind (P : pyval → Prop) :
  P PNone → (∀ b, P (PBool b)) → (∀ z, P (PInt z)) → (∀ f, P (PFloat f)) →
  (∀ s, P (PStr s)) →
  (∀ items, Forall P items → P (PList items)) →
  (∀ items, Forall P items → P (PTuple items)) →
  (∀ entries, Forall (λ kv, P kv.1 ∧ P kv.2) entries → P (PDict entries)) →
  (∀ s, P (PNpGeneric s)) → (∀ a, P (PNdarray a)) → (∀ cls, P (PObject cls)) →
  (∀ up, P (PBackRef up)) →
  ∀ o, P o.
Proof.
  intros HNone HBool HInt HFloat HStr HList HTuple HDict HGen HArr HObj HRef.
  fix IH 1. intros [| | | | |items|items|entries| | | |];
    [apply HNone|apply HBool|apply HInt|apply HFloat|apply HStr| | | |
     apply HGen|apply HArr|apply HObj|apply HRef].
  - apply HList. induction items as [|x items IHitems]; constructor; [apply IH|exact IHitems].
  - apply HTuple. induction items as [|x items IHitems]; constructor; [apply IH|exact IHitems].
  - apply HDict. induction entries as [|[k v] entries IHentries]; constructor;
      [split; apply IH|exact IHentries].
Qed.

Lemma mapM_Raise_elem {A B} (f : A → outcome B) (l : list A) e :
  outcome_mapM f l = Raise e → ∃ x, x ∈ l ∧ f x = Raise e.
Proof.
  induction l as [|a l IH]; simpl; [done|].
  destruct (f a) as [b|e'] eqn:Hfa; simpl.
  - destruct (outcome_mapM f l) as [bs|e']; simpl; [done|].
    intros [= ->]. destruct (IH eq_refl) as (x & Hx & Hfx). exists x. split; [by right|done].
  - intros [= ->]. exists a. split; [left|done].
Qed.

Lemma existsb_fmap_true {A B} (p : B → bool) (g : A → B) (l : list A) (x : A) :
  x ∈ l → p (g x) = true → existsb p (map g l) = true.
Proof.
  intros Hx Hp. apply existsb_exists. exists (g x). split; [|done].
  apply in_map. by apply list_elem_of_In.
Qed.

(** The encoding of [a.tolist()] fails with a [TypeError] or, on an
    element whose [item()] is a numpy scalar again, with a
    [RecursionError]; and not at all when the elements are numeric. *)
Lemma dumps_tolist_raise shape : ∀ elems e,
  Json.dumps NumpyJsonEncoder_default (tolist_rec shape elems) = Raise e →
  exn_type e = TypeError
  ∨ (exn_type e = RecursionError ∧ holds_numpy (tolist_rec shape elems) = true).
Proof.
  induction shape as [|n shape IH]; intros elems e; simpl.
  - destruct elems as [|[[]| | | |] ?]; try done; intros [= <-]; auto.
  - rewrite dumps_list by apply shrinking_NumpyJsonEncoder_default.
    destruct (outcome_mapM _ _) as [chunks|e'] eqn:Hchunks; [done|].
    intros [= ->]. apply mapM_Raise_elem in Hchunks as (x & Hx & Hfx).
    apply list_elem_of_fmap in Hx as (k & -> & Hk).
    destruct (IH _ _ Hfx) as [?|[? Hnp]]; [by left|].
    right. split; [done|]. by eapply (existsb_fmap_true holds_numpy).
Qed.

Lemma dumps_tolist_numeric shape : ∀ elems,
  Forall (λ s, numeric s = true) elems →
  ∃ text, Json.dumps NumpyJsonEncoder_default (tolist_rec shape elems) = Return text.
Proof.
  induction shape as [|n shape IH]; intros elems Helems; simpl.
  - destruct Helems as [|[[]| | | |] ? Hs ?]; try done; eauto.
  - rewrite dumps_list by apply shrinking_NumpyJsonEncoder_default.
    destruct (mapM_total (Json.dumps NumpyJsonEncoder_default)
                (map (λ k, tolist_rec shape
                             (take (product shape) (drop (k * product shape) elems)))
                     (seq 0 n))) as [chunks ->]; [|simpl; eauto].
    intros i x (k & -> & _)%list_lookup_fmap_Some.
    apply IH. by apply Forall_take, Forall_drop.
Qed.

(** The failures of the encoder with the numpy hook: a [TypeError], the
    [ValueError] of a cyclic value, or the [RecursionError] of a numpy
    scalar whose [item()] is a numpy scalar again. *)
Lemma dumps_raise : ∀ o e,
  Json.dumps NumpyJsonEncoder_default o = Raise e →
  exn_type e = TypeError
  ∨ (e = circular_reference ∧ cyclic o = true)
  ∨ (exn_type e = RecursionError ∧ holds_numpy (unbox o) = true).
Proof.
  pose proof shrinking_NumpyJsonEncoder_default as Hd.
  induction o as [|[]| | | |items IH|items IH|entries IH|s|a|cls|up]
    using pyval_nested_ind; intros e; try done.
  - rewrite dumps_list by done.
    destruct (outcome_mapM _ _) as [chunks|e'] eqn:Hchunks; [done|].
    intros [= ->]. apply mapM_Raise_elem in Hchunks as (x & Hx & Hfx).
    rewrite Forall_forall in IH.
    destruct (IH x Hx e Hfx) as [?|[[-> Hcyc]|[? Hnp]]]; [by left| |].
    + right; left. split; [done|]. simpl. apply existsb_exists. exists x.
      split; [by apply list_elem_of_In|done].
    + right; right. split; [done|]. by eapply (existsb_fmap_true holds_numpy).
  - rewrite dumps_tuple by done.
    destruct (outcome_mapM _ _) as [chunks|e'] eqn:Hchunks; [done|].
    intros [= ->]. apply mapM_Raise_elem in Hchunks as (x & Hx & Hfx).
    rewrite Forall_forall in IH.
    destruct (IH x Hx e Hfx) as [?|[[-> Hcyc]|[? Hnp]]]; [by left| |].
    + right; left. split; [done|]. simpl. apply existsb_exists. exists x.
      split; [by apply list_elem_of_In|done].
    + right; right. split; [done|]. by eapply (existsb_fmap_true holds_numpy).
  - rewrite dumps_dict by done.
    destruct (outcome_mapM _ _) as [chunks|e'] eqn:Hchunks; [done|].
    intros [= ->]. apply mapM_Raise_elem in Hchunks as ([k v] & Hx & Hfx).
    simpl in Hfx. rewrite Forall_forall in IH. destruct (IH _ Hx) as [_ IHv].
    destruct (Json.key_str k) as [ks|e'] eqn:Hk.
    + simpl in Hfx.
      destruct (Json.dumps NumpyJsonEncoder_default v) as [t|e'] eqn:Hv; [done|].
      injection Hfx as ->.
      destruct (IHv e Hv) as [?|[[-> Hcyc]|[? Hnp]]]; [by left| |].
      * right; left. split; [done|]. simpl. apply existsb_exists. exists (k, v).
        split; [by apply list_elem_of_In|done].
      * right; right. split; [done|]. cbn [unbox holds_numpy].
        by eapply (existsb_fmap_true (λ kv, holds_numpy kv.2)
                     (λ kv, (kv.1, unbox kv.2)) entries (k, v)).
    + injection Hfx as ->. left.
      destruct k as [|[]| | | | | | | | | |]; simpl in Hk; simplify_eq; reflexivity.
  - destruct s as [[]| | | |]; try done; intros [= <-]; auto.
  - rewrite dumps_ndarray. intros He.
    destruct (dumps_tolist_raise _ _ _ He) as [?|[? Hnp]]; [by left|].
    right; right. done.
  - intros [= <-]. by left.
  - intros [= <-]. right; left. done.
Qed.

(** ** jsonize *)

Lemma dumps_result_object text :
  Json.dumps Json.JSONEncoder_default (PDict [(PStr "result", PStr text)])
  = Return (result_object text).
Proof. reflexivity. Qed.

Lemma isinstance_TypeError e :
  exn_type e = TypeError → isinstance e [TypeError; OverflowError] = true.
Proof. unfold isinstance. by intros ->. Qed.

(** C1, as the specification states it, fails: the [except] clause of
    [jsonize] names [TypeError] and [OverflowError]; the [ValueError] that
    the encoder raises on a cyclic value passes through it, so does the
    [RecursionError] of a numpy scalar whose [item()] is a numpy scalar
    again, and so does an exception of the text conversion in the
    fallback. *)
Lemma jsonize_raises_on_cycle :
  jsonize demo_str (PList [PBackRef 0]) = Raise circular_reference
  ∧ jsonize demo_str (PObject "Strict") = Raise (PyExn AssertionError "payload rejected")
  ∧ (∃ e, jsonize demo_str (PNpGeneric (NpExtended "longdouble")) = Raise e
          ∧ exn_type e = RecursionError)
  ∧ ¬ encode_never_raises demo_str.
Proof.
  split; [reflexivity|]. split; [reflexivity|].
  split; [eexists; split; reflexivity|].
  intros H. destruct (H (PList [PBackRef 0])) as [text Htext]. discriminate Htext.
Qed.

(** C1, amended.  [jsonize] returns the JSON text of the value when the
    encoder returns it.  When the encoder fails with a [TypeError] or an
    [OverflowError], [jsonize] returns the JSON encoding of the mapping
    [{"result": textOf(value)}] if the text conversion of the value
    returns, and raises the exception of the text conversion if it raises.
    When the encoder fails with an exception of any other class (the
    [ValueError] of a circular reference, a [RecursionError]), [jsonize]
    raises that exception. *)
Theorem jsonize_fallback (py_str : pyval → outcome string) (value : pyval) :
  (∀ text, Json.dumps NumpyJsonEncoder_default value = Return text →
           jsonize py_str value = Return text)
  ∧ (∀ e, Json.dumps NumpyJsonEncoder_default value = Raise e →
          isinstance e [TypeError; OverflowError] = true →
          (∀ text, py_str value = Return text →
                   jsonize py_str value
                   = Json.dumps Json.JSONEncoder_default
                       (PDict [(PStr "result", PStr text)])
                   ∧ jsonize py_str value = Return (result_object text))
          ∧ (∀ e', py_str value = Raise e' → jsonize py_str value = Raise e'))
  ∧ (∀ e, Json.dumps NumpyJsonEncoder_default value = Raise e →
          isinstance e [TypeError; OverflowError] = false →
          jsonize py_str value = Raise e).
Proof.
  unfold jsonize. split; [|split].
  - by intros text ->.
  - intros e -> ->. split.
    + intros text ->. simpl. by rewrite dumps_result_object.
    + by intros e' ->.
  - by intros e -> ->.
Qed.

Lemma jsonize_fallback_witness :
  jsonize demo_str (PObject "Widget") = Return (result_object "<Widget>")
  ∧ jsonize demo_str (PList [PInt 1; PObject "Strict"])
    = Return (result_object "list")
  ∧ jsonize demo_str (PTuple [PList [PBackRef 1]]) = Raise circular_reference.
Proof.
  split; [|split].
  - exact (proj2 (proj1 (proj1 (proj2 (jsonize_fallback demo_str (PObject "Widget")))
                          (PyExn TypeError "Object of type Widget is not JSON serializable")
                          eq_refl eq_refl)
                    "<Widget>" eq_refl)).
  - exact (proj2 (proj1 (proj1 (proj2 (jsonize_fallback demo_str
                                         (PList [PInt 1; PObject "Strict"])))
                          (PyExn TypeError "Object of type Strict is not JSON serializable")
                          eq_refl eq_refl)
                    "list" eq_refl)).
  - exact (proj2 (proj2 (jsonize_fallback demo_str (PTuple [PList [PBackRef 1]])))
             circular_reference eq_refl eq_refl).
Defined.

(** ** The numpy hook *)

Lemma nd_offset_lt shape : ∀ idx,
  Forall2 lt idx shape → (nd_offset shape idx < product shape)%nat.
Proof.
  induction shape as [|n shape IH]; intros idx Hidx.
  - apply Forall2_nil_inv_r in Hidx as ->. simpl. lia.
  - apply Forall2_cons_inv_r in Hidx as (i & idx' & Hi & Hidx' & ->).
    specialize (IH idx' Hidx'). simpl. nia.
Qed.

(** [tolist] follows the row-major order: the item at [i1, ..., in] of the
    nested lists is the element at the row-major offset. *)
Lemma tolist_row_major shape : ∀ elems idx,
  length elems = product shape → Forall2 lt idx shape →
  nested_get (tolist_rec shape elems) idx = item <$> elems !! nd_offset shape idx.
Proof.
  induction shape as [|n shape IH]; intros elems idx Hlen Hidx.
  - apply Forall2_nil_inv_r in Hidx as ->. simpl in *.
    destruct elems as [|x [|??]]; simpl in *; done.
  - apply Forall2_cons_inv_r in Hidx as (i & idx' & Hi & Hidx' & ->).
    simpl in Hlen. cbn [tolist_rec nested_get nd_offset].
    rewrite list_lookup_fmap, lookup_seq_lt by done. simpl.
    pose proof (nd_offset_lt shape idx' Hidx') as Hoff.
    rewrite IH; [|rewrite length_take, length_drop; nia|done].
    rewrite lookup_take_lt by done. rewrite lookup_drop. done.
Qed.

(** The nested lists of an array of numbers have the extents of its
    shape. *)
Lemma length_block (elems : list np_scalar) (n stride k : nat) :
  length elems = (n * stride)%nat → (k < n)%nat →
  length (take stride (drop (k * stride) elems)) = stride.
Proof. intros Hlen Hk. rewrite length_take, length_drop. nia. Qed.

Lemma has_shape_tolist shape : ∀ elems,
  length elems = product shape → Forall (λ s, numeric s = true) elems →
  has_shape shape (tolist_rec shape elems) = true.
Proof.
  induction shape as [|n shape IH]; intros elems Hlen Helems.
  - destruct Helems as [|[[]| | | |] ? Hs ?]; done.
  - cbn [tolist_rec has_shape]. simpl in Hlen.
    rewrite length_map, length_seq, Nat.eqb_refl. simpl.
    apply forallb_forall. intros x (k & <- & Hk%in_seq)%in_map_iff.
    apply IH; [apply (length_block _ n); [done|lia]|]. by apply Forall_take, Forall_drop.
Qed.

(** A one-dimensional array gives the list of its items. *)
Lemma tolist_vector (elems : list np_scalar) :
  tolist_rec [length elems] elems = PList (map item elems).
Proof.
  cbn [tolist_rec]. f_equal. apply list_eq. intros i.
  rewrite !list_lookup_fmap.
  destruct (elems !! i) as [x|] eqn:Hx; simpl.
  - rewrite lookup_seq_lt by (by eapply lookup_lt_Some). simpl.
    rewrite Nat.mul_1_r, (drop_S _ _ _ Hx). done.
  - rewrite lookup_seq_ge by (by apply lookup_ge_None). done.
Qed.

Lemma mapM_dumps_items (elems : list np_scalar) :
  Forall (λ s, numeric s = true) elems →
  outcome_mapM (Json.dumps NumpyJsonEncoder_default) (map item elems)
  = Return (map scalar_text elems).
Proof.
  induction 1 as [|s elems Hs _ IH]; [done|].
  simpl. rewrite IH. by destruct s as [[]| | | |].
Qed.

(** An element without native number makes the encoding of the nested
    lists fail. *)
Lemma dumps_tolist_not_numeric shape : ∀ elems,
  length elems = product shape → Exists (λ s, numeric s = false) elems →
  ∃ e, Json.dumps NumpyJsonEncoder_default (tolist_rec shape elems) = Raise e.
Proof.
  induction shape as [|n shape IH]; intros elems Hlen Helems.
  - destruct elems as [|x [|??]]; try done.
    apply Exists_cons in Helems as [Hx|Hnil%Exists_nil]; [|done].
    destruct x as [| | |c|name]; try done; simpl; eauto.
  - apply Exists_exists in Helems as (s & [p Hp]%list_elem_of_lookup & Hs).
    simpl in Hlen. pose proof (lookup_lt_Some _ _ _ Hp) as Hlt.
    set (stride := product shape) in *.
    assert (0 < stride)%nat as Hstride by nia.
    assert (p `div` stride < n)%nat as Hk by (apply Nat.Div0.div_lt_upper_bound; lia).
    cbn [tolist_rec]. fold stride.
    rewrite dumps_list by apply shrinking_NumpyJsonEncoder_default.
    destruct (IH (take stride (drop (p `div` stride * stride) elems))) as [e He].
    { by apply (length_block _ n). }
    { apply Exists_exists. exists s. split; [|done].
      apply list_elem_of_lookup. exists (p `mod` stride)%nat.
      rewrite lookup_take_lt by (apply Nat.mod_upper_bound; lia).
      rewrite lookup_drop. rewrite <- Hp. f_equal.
      pose proof (Nat.div_mod_eq p stride). lia. }
    destruct (mapM_Raise_lookup (Json.dumps NumpyJsonEncoder_default)
                (map (λ k, tolist_rec shape (take stride (drop (k * stride) elems)))
                     (seq 0 n))
                (p `div` stride)%nat
                (tolist_rec shape (take stride (drop (p `div` stride * stride) elems)))
                e) as [e' He']; [|exact He|].
    + rewrite list_lookup_fmap, lookup_seq_lt by done. done.
    + rewrite He'. simpl. eauto.
Qed.

(** What is left of numpy in the nested lists are the elements whose
    [item()] is a numpy scalar again. *)
Lemma holds_numpy_tolist shape : ∀ elems,
  holds_numpy (tolist_rec shape elems) = true → existsb extended elems = true.
Proof.
  induction shape as [|n shape IH]; intros elems; simpl.
  - destruct elems as [|[[]| | | |] ?]; done.
  - intros (x & (k & <- & _)%in_map_iff & Hx%IH)%existsb_exists.
    apply existsb_exists in Hx as (s & Hs & Hext).
    apply existsb_exists. exists s. split; [|done].
    apply list_elem_of_In in Hs. apply elem_of_take in Hs as (i & Hi & _).
    rewrite lookup_drop in Hi. apply list_elem_of_In.
    by eapply list_elem_of_lookup_2.
Qed.

(** C7, as the specification states it, fails: a numpy scalar or array whose
    items have no JSON form (complex numbers here) makes the encoder fail
    after the conversion, and [jsonize] falls back to the text of the numpy
    value itself: the scalar becomes an object, not a plain number, and the
    array and its nested list give different texts. *)
Lemma complex_takes_the_fallback :
  jsonize demo_str (PNpGeneric (NpOther "complex")) = Return (result_object "(1+2j)")
  ∧ jsonize demo_str (PNdarray (NdArray [1%nat] [NpOther "complex"]))
    = Return (result_object "[1.+2.j]")
  ∧ jsonize demo_str (tolist (NdArray [1%nat] [NpOther "complex"]))
    = Return (result_object "[(1+2j)]")
  ∧ ¬ numpy_encodes_as_native demo_str.
Proof.
  split; [reflexivity|]. split; [reflexivity|]. split; [reflexivity|].
  intros [_ H]. specialize (H (NdArray [1%nat] [NpOther "complex"])).
  vm_compute in H. discriminate H.
Qed.

(** C7, amended.  For every numpy scalar that holds a boolean, an integer
    or a float whose [item()] is a native float, [jsonize] gives the text
    of the unboxed native scalar, a plain JSON scalar.  For every numpy
    array of such elements, as many as its shape says, [jsonize] gives the
    text of a nested native list that has the extents of the shape and
    holds at [i1, ..., in] the unboxed element at the row-major offset;
    for a one-dimensional array this text is the texts of the elements
    between brackets, separated by a comma and a space.  A numpy scalar
    whose item has no JSON form, and an array that holds such an element
    and no element of an extended type, take the fallback
    [{"result": str(value)}], with the text of the numpy value itself.  A
    numpy scalar of an extended type, whose [item()] is a numpy scalar
    again, is never encoded: [jsonize] raises a [RecursionError]. *)
Theorem numeric_numpy_encodes_as_native (py_str : pyval → outcome string) :
  (∀ s, numeric s = true →
        jsonize py_str (PNpGeneric s) = jsonize py_str (item s)
        ∧ jsonize py_str (PNpGeneric s) = Return (scalar_text s))
  ∧ (∀ a, length (nd_data a) = product (nd_shape a) →
          Forall (λ s, numeric s = true) (nd_data a) →
          ∃ v text,
            jsonize py_str (PNdarray a) = Return text
            ∧ jsonize py_str v = Return text
            ∧ has_shape (nd_shape a) v = true
            ∧ ∀ idx, Forall2 lt idx (nd_shape a) →
                     nested_get v idx
                     = item <$> nd_data a !! nd_offset (nd_shape a) idx)
  ∧ (∀ elems, Forall (λ s, numeric s = true) elems →
              jsonize py_str (PNdarray (NdArray [length elems] elems))
              = Return ("[" +:+ join ", " (map scalar_text elems) +:+ "]"))
  ∧ (∀ c text, py_str (PNpGeneric (NpOther c)) = Return text →
               jsonize py_str (PNpGeneric (NpOther c)) = Return (result_object text))
  ∧ (∀ a text, length (nd_data a) = product (nd_shape a) →
               Exists (λ s, numeric s = false) (nd_data a) →
               existsb extended (nd_data a) = false →
               py_str (PNdarray a) = Return text →
               jsonize py_str (PNdarray a) = Return (result_object text))
  ∧ (∀ name, ∃ e, jsonize py_str (PNpGeneric (NpExtended name)) = Raise e
                  ∧ exn_type e = RecursionError).
Proof.
  pose proof shrinking_NumpyJsonEncoder_default as Hd.
  split; [|split; [|split; [|split; [|split]]]].
  - intros [[]|z|f|c|name] Hs; try done; split; reflexivity.
  - intros a Hlen Ha.
    destruct (dumps_tolist_numeric (nd_shape a) (nd_data a) Ha) as [text Htext].
    exists (tolist a), text. unfold jsonize. rewrite dumps_ndarray.
    unfold tolist. rewrite Htext. split; [done|]. split; [done|].
    split; [by apply has_shape_tolist|].
    intros idx Hidx. by apply tolist_row_major.
  - intros elems Helems. unfold jsonize. rewrite dumps_ndarray. unfold tolist.
    cbn [nd_shape nd_data]. rewrite tolist_vector, dumps_list by done.
    by rewrite mapM_dumps_items.
  - intros c text Htext. unfold jsonize.
    change (Json.dumps NumpyJsonEncoder_default (PNpGeneric (NpOther c)))
      with (Raise (A := string)
              (PyExn TypeError ("Object of type " +:+ c +:+ " is not JSON serializable"))).
    cbv beta iota.
    change (isinstance (PyExn TypeError _) [TypeError; OverflowError]) with true.
    cbv iota. rewrite Htext. simpl. by rewrite dumps_result_object.
  - intros a text Hlen Hother Hext Htext. unfold jsonize. rewrite dumps_ndarray.
    destruct (dumps_tolist_not_numeric _ _ Hlen Hother) as [e He].
    unfold tolist. rewrite He.
    destruct (dumps_tolist_raise _ _ _ He) as [Hty|[_ Hnp]].
    + rewrite (isinstance_TypeError _ Hty), Htext. simpl.
      by rewrite dumps_result_object.
    + apply holds_numpy_tolist in Hnp. congruence.
  - intros name. eexists. split; reflexivity.
Qed.

Lemma numeric_numpy_encodes_as_native_witness :
  jsonize demo_str (PNpGeneric (NpFloat (FFinite false 35 (-1)))) = Return "3.5"
  ∧ jsonize demo_str (PNdarray (NdArray [4]%nat [NpInt 1; NpInt 2; NpInt 3; NpInt 4]))
    = Return "[1, 2, 3, 4]"
  ∧ ∃ v text,
      jsonize demo_str
        (PNdarray (NdArray [2; 2]%nat [NpInt 1; NpInt 2; NpInt 3; NpInt 4])) = Return text
      ∧ jsonize demo_str v = Return text
      ∧ has_shape [2; 2]%nat v = true
      ∧ nested_get v [1; 0]%nat = Some (PInt 3).
Proof.
  destruct (numeric_numpy_encodes_as_native demo_str) as (Hs & Ha & Hv & _).
  split; [|split].
  - apply (Hs (NpFloat (FFinite false 35 (-1)))). reflexivity.
  - apply (Hv [NpInt 1; NpInt 2; NpInt 3; NpInt 4]). repeat constructor.
  - destruct (Ha (NdArray [2; 2]%nat [NpInt 1; NpInt 2; NpInt 3; NpInt 4]))
      as (v & text & H1 & H2 & H3 & H4); [reflexivity|repeat constructor|].
    exists v, text. split; [done|]. split; [done|]. split; [done|].
    apply (H4 [1; 0]%nat). repeat constructor.
Defined.

(** ** Texts *)

Lemma string_app_cons (c : ascii) (s t : string) : String c s +:+ t = String c (s +:+ t).
Proof. reflexivity. Qed.

Lemma string_app_nil_l (s : string) : EmptyString +:+ s = s.
Proof. reflexivity. Qed.

Lemma string_app_nil_r (s : string) : s +:+ EmptyString = s.
Proof. induction s as [|c s IH]; [done|]. by rewrite string_app_cons, IH. Qed.

Lemma string_app_assoc (s t u : string) : (s +:+ t) +:+ u = s +:+ (t +:+ u).
Proof. induction s as [|c s IH]; [done|]. by rewrite !string_app_cons, IH. Qed.

Lemma string_length_app (s t : string) :
  String.length (s +:+ t) = (String.length s + String.length t)%nat.
Proof. induction s as [|c s IH]; [done|]. rewrite string_app_cons. simpl. by rewrite IH. Qed.

(** ** Texts between quotes *)

Lemma scanstring_escape (s : string) : ∀ rest,
  Json.scanstring (Json.escape_string s +:+ String dquote rest) = Return (s, rest).
Proof.
  induction s as [|c s IH]; intros rest; [reflexivity|].
  cbn [Json.escape_string]. rewrite string_app_assoc.
  specialize (IH rest). revert IH.
  generalize (Json.escape_string s +:+ String dquote rest). intros t IH.
  destruct c as [[] [] [] [] [] [] [] []];
    match goal with |- context [Json.escape_char ?c] =>
      let e := eval vm_compute in (Json.escape_char c) in
      change (Json.escape_char c) with e
    end;
    rewrite ?string_app_cons, string_app_nil_l; simpl; rewrite IH; reflexivity.
Qed.

(** ** Decimal digits *)

Import Json.

Lemma digit_char_code (d : N) : (d < 10)%N → N_of_ascii (digit_char d) = (48 + d)%N.
Proof. intros Hd. unfold digit_char. apply N_ascii_embedding. lia. Qed.

Lemma digit_char_is_digit (d : N) : (d < 10)%N → is_digit (digit_char d) = true.
Proof.
  intros Hd. unfold is_digit. rewrite digit_char_code by done.
  apply andb_true_intro. split; apply N.leb_le; lia.
Qed.

Lemma N_of_digits_acc_app (s t : string) : ∀ acc,
  N_of_digits_acc (s +:+ t) acc = N_of_digits_acc t (N_of_digits_acc s acc).
Proof. induction s as [|c s IH]; intros acc; [done|]. rewrite string_app_cons. apply IH. Qed.

Lemma N_of_digits_acc_shift (s : string) : ∀ acc,
  N_of_digits_acc s acc
  = (acc * 10 ^ N.of_nat (String.length s) + N_of_digits_acc s 0)%N.
Proof.
  induction s as [|c s IH]; intros acc.
  - simpl. lia.
  - cbn [N_of_digits_acc String.length]. rewrite IH, (IH (10 * 0 + _)%N).
    rewrite Nat2N.inj_succ, N.pow_succ_r'. lia.
Qed.

Lemma all_digits_app (s t : string) :
  all_digits (s +:+ t) = all_digits s && all_digits t.
Proof.
  induction s as [|c s IH]; [done|]. rewrite string_app_cons. simpl.
  by rewrite IH, andb_assoc.
Qed.

Lemma span_digits_app (ds rest : string) :
  all_digits ds = true → no_digit_head rest = true →
  span_digits (ds +:+ rest) = (ds, rest).
Proof.
  intros Hds Hrest. induction ds as [|c ds IH].
  - rewrite string_app_nil_l. destruct rest as [|c rest]; [done|]. simpl in *.
    by destruct (is_digit c).
  - rewrite string_app_cons. simpl in *. apply andb_prop in Hds as [-> Hds].
    by rewrite IH.
Qed.

(** The digits that [dec_string_aux] puts before [acc]. *)
Lemma dec_string_aux_spec fuel : ∀ n acc,
  (n < 2 ^ N.of_nat (S fuel))%N →
  ∃ c ds,
    dec_string_aux fuel n acc = String c ds +:+ acc
    ∧ all_digits (String c ds) = true
    ∧ N_of_digits (String c ds) = n
    ∧ (Ascii.eqb c "0" = true → n = 0%N ∧ ds = EmptyString).
Proof.
  induction fuel as [|fuel IH]; intros n acc Hn.
  - exists (digit_char n), EmptyString.
    assert (n < 2)%N by (simpl in Hn; lia).
    assert (n = 0 ∨ n = 1)%N as [-> | ->] by lia; done.
  - cbn [dec_string_aux]. destruct (n <? 10)%N eqn:Hlt.
    + apply N.ltb_lt in Hlt. rewrite N.mod_small by done.
      exists (digit_char n), EmptyString. split; [done|]. split; [|split].
      * simpl. by rewrite digit_char_is_digit.
      * unfold N_of_digits. simpl. rewrite digit_char_code by done. lia.
      * intros Hz. split; [|done]. apply Ascii.eqb_eq in Hz.
        apply (f_equal N_of_ascii) in Hz. rewrite digit_char_code in Hz by done.
        simpl in Hz. lia.
    + apply N.ltb_ge in Hlt.
      assert (Hdiv : (n / 10 < 2 ^ N.of_nat (S fuel))%N).
      { rewrite Nat2N.inj_succ, N.pow_succ_r' in Hn.
        apply N.Div0.div_lt_upper_bound. lia. }
      destruct (IH (n / 10)%N (String (digit_char (n mod 10)) acc) Hdiv)
        as (c & ds & Haux & Hdigits & Hval & Hzero).
      pose proof (N.mod_upper_bound n 10 ltac:(lia)) as Hmod.
      exists c, (ds +:+ String (digit_char (n mod 10)) EmptyString).
      split; [|split; [|split]].
      * rewrite Haux, <- string_app_cons, string_app_assoc. done.
      * rewrite <- string_app_cons, all_digits_app, Hdigits. simpl.
        by rewrite digit_char_is_digit.
      * rewrite <- string_app_cons. unfold N_of_digits in *.
        rewrite N_of_digits_acc_app, Hval. simpl.
        rewrite digit_char_code by done.
        pose proof (N.div_mod' n 10) as Hdm. revert Hdm.
        generalize (n / 10)%N (n mod 10)%N. intros q r Hdm. lia.
      * intros Hz. destruct (Hzero Hz) as [Hdiv0 _].
        assert (n / 10 ≠ 0)%N; [|done].
        intros Hq. apply N.div_small_iff in Hq; lia.
Qed.

Lemma dec_string_spec (n : N) :
  ∃ c ds,
    dec_string n = String c ds
    ∧ all_digits (String c ds) = true
    ∧ N_of_digits (String c ds) = n
    ∧ (Ascii.eqb c "0" = true → n = 0%N ∧ ds = EmptyString).
Proof.
  destruct (dec_string_aux_spec (N.to_nat (N.log2 n)) n EmptyString)
    as (c & ds & Haux & H).
  - rewrite Nat2N.inj_succ, N2Nat.id.
    destruct (decide (n = 0%N)) as [-> | Hn]; [done|].
    apply N.log2_spec. lia.
  - exists c, ds. split; [|done]. unfold dec_string. by rewrite Haux, string_app_nil_r.
Qed.

(** ** Number literals *)

#[local] Arguments Ascii.eqb : simpl never.

Lemma strip_prefix_char (p c : ascii) (s : string) :
  strip_prefix (String p EmptyString) (String c s)
  = if Ascii.eqb c p then Some s else None.
Proof. cbn [strip_prefix]. rewrite Ascii.eqb_sym. by destruct s. Qed.

Lemma ends_number_no_digit rest : ends_number rest = true → no_digit_head rest = true.
Proof.
  destruct rest as [|c rest]; [done|]. simpl. by destruct (is_digit c).
Qed.

Lemma match_frac_end rest : ends_number rest = true → match_frac rest = (None, rest).
Proof.
  destruct rest as [|c rest]; [done|]. unfold ends_number, match_frac.
  rewrite strip_prefix_char.
  destruct (Ascii.eqb c "."); [|done].
  by rewrite orb_true_r.
Qed.

Lemma match_exp_end rest : ends_number rest = true → match_exp rest = (None, rest).
Proof.
  destruct rest as [|c rest]; [done|]. unfold ends_number, match_exp.
  destruct (Ascii.eqb c "e"), (Ascii.eqb c "E"); rewrite ?orb_true_r; done.
Qed.

Lemma match_frac_digits (ds rest : string) :
  ds ≠ EmptyString → all_digits ds = true → no_digit_head rest = true →
  match_frac (String "." (ds +:+ rest)) = (Some ds, rest).
Proof.
  intros Hne Hds Hrest. unfold match_frac. rewrite strip_prefix_char.
  change (Ascii.eqb "." ".") with true. cbv iota.
  rewrite span_digits_app by done. by destruct ds.
Qed.

Lemma match_exp_digits (neg : bool) (ds rest : string) :
  ds ≠ EmptyString → all_digits ds = true → no_digit_head rest = true →
  match_exp (String "e" (String (if neg then "-" else "+")%char (ds +:+ rest)))
  = (Some (neg, ds), rest).
Proof.
  intros Hne Hds Hrest. unfold match_exp.
  change (Ascii.eqb "e" "e") with true. cbv iota. simpl orb. cbv iota.
  rewrite !strip_prefix_char.
  destruct neg;
    [change (Ascii.eqb "-" "-") with true
    |change (Ascii.eqb "+" "-") with false; change (Ascii.eqb "+" "+") with true];
    cbv iota; rewrite span_digits_app by done; by destruct ds.
Qed.

Lemma digit_head_facts (c : ascii) :
  is_digit c = true →
  Ascii.eqb c dquote = false ∧ Ascii.eqb c "{" = false ∧ Ascii.eqb c "[" = false
  ∧ Ascii.eqb c "]" = false ∧ Ascii.eqb c "-" = false ∧ Ascii.eqb c "n" = false
  ∧ Ascii.eqb c "t" = false ∧ Ascii.eqb c "f" = false ∧ is_ws c = false.
Proof.
  destruct c as [[] [] [] [] [] [] [] []]; intros H; try discriminate H;
    repeat split; reflexivity.
Qed.

Lemma strip_prefix_head (p c : ascii) (ps s : string) :
  Ascii.eqb c p = false → strip_prefix (String p ps) (String c s) = None.
Proof. intros H. cbn [strip_prefix]. by rewrite Ascii.eqb_sym, H. Qed.

(** The integer part [String c ds] of a literal, sign and what follows
    included. *)
Lemma match_number_int_part (neg : bool) (c : ascii) (ds after : string) :
  all_digits (String c ds) = true →
  (Ascii.eqb c "0" = true → ds = EmptyString) →
  no_digit_head after = true →
  match_number ((if neg then String "-" (String c ds) else String c ds) +:+ after)
  = Some (mkNumber neg (String c ds) (match_frac after).1
            (match_exp (match_frac after).2).1
            (match_exp (match_frac after).2).2).
Proof.
  intros Hds Hzero Hafter. simpl in Hds. apply andb_prop in Hds as [Hc Hds].
  destruct (digit_head_facts c Hc) as (_ & _ & _ & _ & Hminus & _).
  assert (strip_prefix "-"
            ((if neg then String "-" (String c ds) else String c ds) +:+ after)
          = if neg then Some (String c ds +:+ after) else None) as Hsign.
  { destruct neg; [done|]. rewrite string_app_cons. by apply strip_prefix_head. }
  unfold match_number. rewrite Hsign.
  assert ((if neg then (true, String c ds +:+ after)
           else (false, (String c ds) +:+ after))
          = (neg, String c (ds +:+ after))) as Hpair by (by destruct neg).
  destruct neg; rewrite string_app_cons;
    (destruct (Ascii.eqb c "0") eqn:Hz;
     [rewrite (Hzero eq_refl), string_app_nil_l; apply Ascii.eqb_eq in Hz as ->
     |rewrite Hc, span_digits_app by done];
     destruct (match_frac after) as [frac s2]; cbn [fst snd];
     destruct (match_exp s2) as [exp s3]; reflexivity).
Qed.

Lemma scan_once_number fuel (c : ascii) (s : string) (n : number_match) :
  is_digit c = true ∨ c = "-"%char →
  match_number (String c s) = Some n →
  scan_once (S fuel) (String c s) = Return (value_of_number n, num_rest n).
Proof.
  intros Hc Hn. cbn [scan_once]. rewrite Hn.
  assert (Ascii.eqb c dquote = false ∧ Ascii.eqb c "{" = false
          ∧ Ascii.eqb c "[" = false ∧ Ascii.eqb c "n" = false
          ∧ Ascii.eqb c "t" = false ∧ Ascii.eqb c "f" = false)
    as (Hq & Hb & Hk & Hn' & Ht & Hf).
  { destruct Hc as [Hc | ->]; [|by repeat split].
    destruct (digit_head_facts c Hc) as (? & ? & ? & ? & ? & ? & ? & ? & ?).
    by repeat split. }
  rewrite Hq, Hb, Hk.
  by rewrite !strip_prefix_head by done.
Qed.

Lemma scan_once_int fuel (z : Z) (rest : string) :
  ends_number rest = true →
  scan_once (S fuel) (int_repr z +:+ rest) = Return (PInt z, rest).
Proof.
  intros Hrest.
  destruct (dec_string_spec (Z.to_N (Z.abs z))) as (c & ds & Hdec & Hds & Hval & Hzero).
  assert (int_repr z = if z <? 0 then String "-" (String c ds) else String c ds) as ->.
  { destruct z as [|p|p]; simpl in *; by rewrite Hdec. }
  pose proof (match_number_int_part (z <? 0) c ds rest Hds
                (λ H, proj2 (Hzero H)) (ends_number_no_digit _ Hrest)) as Hmatch.
  rewrite match_frac_end in Hmatch by done. cbn [fst snd] in Hmatch.
  rewrite match_exp_end in Hmatch by done. cbn [fst snd] in Hmatch.
  assert (∃ c' s', (if z <? 0 then String "-" (String c ds) else String c ds) +:+ rest
                   = String c' s' ∧ (is_digit c' = true ∨ c' = "-"%char))
    as (c' & s' & Heq & Hc').
  { simpl in Hds. apply andb_prop in Hds as [Hc _].
    destruct (z <? 0); rewrite string_app_cons; eauto. }
  rewrite Heq in *. rewrite (scan_once_number _ _ _ _ Hc' Hmatch).
  unfold value_of_number. cbn [num_neg num_int num_frac num_exp num_rest].
  rewrite Hval. do 3 f_equal. destruct (z <? 0) eqn:Hneg; lia.
Qed.

(** ** Float literals *)

Lemma take_drop_string (k : nat) (s : string) : string_take k s +:+ string_drop k s = s.
Proof.
  revert s. induction k as [|k IH]; intros [|c s]; simpl; try done.
  by rewrite string_app_cons, IH.
Qed.

Lemma length_string_take (k : nat) (s : string) :
  (k ≤ String.length s)%nat → String.length (string_take k s) = k.
Proof.
  revert s. induction k as [|k IH]; intros [|c s]; simpl; try done; try lia.
  intros Hk. rewrite IH; lia.
Qed.

Lemma length_string_drop (k : nat) (s : string) :
  String.length (string_drop k s) = (String.length s - k)%nat.
Proof. revert s. induction k as [|k IH]; intros [|c s]; simpl; try done. Qed.

Lemma all_digits_take (k : nat) (s : string) :
  all_digits s = true → all_digits (string_take k s) = true.
Proof.
  revert s. induction k as [|k IH]; intros [|c s]; simpl; try done.
  intros [-> Hs]%andb_prop. by apply IH.
Qed.

Lemma all_digits_drop (k : nat) (s : string) :
  all_digits s = true → all_digits (string_drop k s) = true.
Proof.
  revert s. induction k as [|k IH]; intros [|c s]; simpl; try done.
  intros [_ Hs]%andb_prop. by apply IH.
Qed.

Lemma all_digits_zeros (k : nat) : all_digits (zeros k) = true.
Proof. induction k as [|k IH]; [done|]. simpl. by rewrite IH. Qed.

Lemma length_zeros (k : nat) : String.length (zeros k) = k.
Proof. induction k as [|k IH]; [done|]. simpl. by rewrite IH. Qed.

Lemma N_of_digits_acc_zeros (k : nat) : ∀ acc,
  N_of_digits_acc (zeros k) acc = (acc * 10 ^ N.of_nat k)%N.
Proof.
  induction k as [|k IH]; intros acc.
  - simpl. lia.
  - cbn [zeros N_of_digits_acc]. rewrite IH, Nat2N.inj_succ, N.pow_succ_r'.
    change (N_of_ascii "0" - 48)%N with 0%N. lia.
Qed.

Lemma N_of_digits_app (s t : string) :
  N_of_digits (s +:+ t)
  = (N_of_digits s * 10 ^ N.of_nat (String.length t) + N_of_digits t)%N.
Proof.
  unfold N_of_digits. rewrite N_of_digits_acc_app. apply N_of_digits_acc_shift.
Qed.

Lemma N_of_digits_zeros (k : nat) : N_of_digits (zeros k) = 0%N.
Proof. unfold N_of_digits. rewrite N_of_digits_acc_zeros. lia. Qed.

(** Stripping the trailing zeros of [m * 10 ^ j]. *)
Lemma strip_zeros_pow (j : nat) : ∀ fuel (m : N) (e : Z),
  (j ≤ fuel)%nat → (m mod 10 ≠ 0)%N →
  strip_zeros fuel (m * 10 ^ N.of_nat j) e = (m, e + Z.of_nat j).
Proof.
  induction j as [|j IH]; intros fuel m e Hfuel Hm.
  - rewrite N.mul_1_r, Z.add_0_r. destruct fuel as [|fuel]; [done|]. simpl.
    by apply N.eqb_neq in Hm as ->.
  - destruct fuel as [|fuel]; [lia|]. cbn [strip_zeros].
    rewrite Nat2N.inj_succ, N.pow_succ_r'.
    replace (m * (10 * 10 ^ N.of_nat j))%N with (m * 10 ^ N.of_nat j * 10)%N by lia.
    rewrite N.Div0.mod_mul, N.div_mul by done. simpl.
    rewrite IH by (done || lia). f_equal. lia.
Qed.

(** [float] of a literal whose digits are those of [m] followed by [j]
    zeros. *)
Lemma float_of_literal_digits (neg : bool) (int_part : string) (frac : option string)
    (exp : option (bool * string)) (m : N) (e : Z) (j : nat) :
  finite_float (FFinite neg m e) = true →
  N_of_digits (int_part +:+ default EmptyString frac) = (m * 10 ^ N.of_nat j)%N →
  (j ≤ String.length (int_part +:+ default EmptyString frac))%nat →
  (m ≠ 0%N →
   match exp with
   | Some (true, d) => - Z.of_N (N_of_digits d)
   | Some (false, d) => Z.of_N (N_of_digits d)
   | None => 0
   end - Z.of_nat (String.length (default EmptyString frac)) + Z.of_nat j = e) →
  float_of_literal neg int_part frac exp = FFinite neg m e.
Proof.
  intros Hfin Hval Hj He. unfold float_of_literal. rewrite Hval.
  unfold finite_float in Hfin.
  destruct (m =? 0)%N eqn:Hm.
  - apply N.eqb_eq in Hm as ->. apply Z.eqb_eq in Hfin as ->. done.
  - apply N.eqb_neq in Hm. apply negb_true_iff, N.eqb_neq in Hfin.
    assert (m * 10 ^ N.of_nat j ≠ 0)%N as ->%N.eqb_neq.
    { apply N.neq_mul_0. split; [done|]. by apply N.pow_nonzero. }
    rewrite strip_zeros_pow by done. rewrite (He Hm). done.
Qed.

Lemma sign_app (neg : bool) (int_part tail rest : string) :
  (if neg then String "-" (int_part +:+ tail) else int_part +:+ tail) +:+ rest
  = (if neg then String "-" int_part else int_part) +:+ (tail +:+ rest).
Proof. destruct neg; by rewrite ?string_app_cons, string_app_assoc. Qed.

Lemma match_frac_none (c : ascii) (s : string) :
  Ascii.eqb c "." = false → match_frac (String c s) = (None, String c s).
Proof. intros Hc. unfold match_frac. by rewrite strip_prefix_char, Hc. Qed.

(** The exponent digits of [repr], padded to two. *)
Lemma exponent_digits (x : N) :
  let d := dec_string x in
  let p := if (String.length d <? 2)%nat then String "0" d else d in
  p ≠ EmptyString ∧ all_digits p = true ∧ N_of_digits p = x.
Proof.
  destruct (dec_string_spec x) as (c & ds & -> & Hds & Hval & _). simpl.
  destruct ds as [|c' ds]; simpl; [|done].
  split; [done|]. split; [simpl in Hds; by rewrite Hds|].
  unfold N_of_digits in *. simpl in *. lia.
Qed.

Lemma float_literal_parse (neg : bool) (c0 : ascii) (ds0 tail rest : string)
    (frac : option string) (exp : option (bool * string)) (s2 : string) (f : pyfloat) :
  all_digits (String c0 ds0) = true →
  (Ascii.eqb c0 "0" = true → ds0 = EmptyString) →
  no_digit_head (tail +:+ rest) = true →
  match_frac (tail +:+ rest) = (frac, s2) →
  match_exp s2 = (exp, rest) →
  is_Some frac ∨ is_Some exp →
  float_of_literal neg (String c0 ds0) frac exp = f →
  ∃ n c s,
    (if neg then String "-" (String c0 ds0 +:+ tail) else String c0 ds0 +:+ tail)
    +:+ rest = String c s
    ∧ (is_digit c = true ∨ c = "-"%char)
    ∧ match_number (String c s) = Some n
    ∧ value_of_number n = PFloat f
    ∧ num_rest n = rest.
Proof.
  intros Hds Hzero Htail Hfrac Hexp Hsome Hf.
  pose proof (match_number_int_part neg c0 ds0 (tail +:+ rest) Hds Hzero Htail) as Hn.
  rewrite Hfrac in Hn. cbn [fst snd] in Hn. rewrite Hexp in Hn. cbn [fst snd] in Hn.
  rewrite sign_app.
  assert (∃ c s, (if neg then String "-" (String c0 ds0) else String c0 ds0)
                 +:+ (tail +:+ rest) = String c s
                 ∧ (is_digit c = true ∨ c = "-"%char)) as (c & s & Heq & Hc).
  { simpl in Hds. apply andb_prop in Hds as [Hc _].
    destruct neg; rewrite string_app_cons; eauto. }
  rewrite Heq in *. eexists _, c, s. split; [done|]. split; [done|].
  split; [exact Hn|]. split; [|done].
  unfold value_of_number. cbn [num_neg num_int num_frac num_exp].
  subst f. destruct Hsome as [[? ->]|[? ->]]; [done|]. by destruct frac.
Qed.

Lemma zeros_snoc (k : nat) : zeros k +:+ "0" = zeros (S k).
Proof. induction k as [|k IH]; [done|]. simpl. by rewrite string_app_cons, IH. Qed.

(** The literal that [repr] writes for a finite float is read back as the
    same float. *)
Lemma match_number_float (neg : bool) (m : N) (e : Z) (rest : string) :
  finite_float (FFinite neg m e) = true →
  ends_number rest = true →
  ∃ n c s,
    float_repr_finite neg m e +:+ rest = String c s
    ∧ (is_digit c = true ∨ c = "-"%char)
    ∧ match_number (String c s) = Some n
    ∧ value_of_number n = PFloat (FFinite neg m e)
    ∧ num_rest n = rest.
Proof.
  intros Hfin Hrest.
  pose proof (ends_number_no_digit _ Hrest) as Hrest'.
  destruct (dec_string_spec m) as (c & ds & Hdec & Hds & Hval & Hzero).
  assert (Hm0 : m = 0%N → e = 0 ∧ c = "0"%char ∧ ds = EmptyString).
  { intros ->. simpl in Hfin. apply Z.eqb_eq in Hfin.
    vm_compute in Hdec. by injection Hdec as <- <-. }
  assert (is_digit c = true ∧ all_digits ds = true) as [Hc Hds'].
  { simpl in Hds. by apply andb_prop in Hds. }
  unfold float_repr_finite. rewrite Hdec.
  set (n := Z.of_nat (String.length (String c ds))).
  assert (Hn : n = 1 + Z.of_nat (String.length ds)) by (unfold n; simpl; lia).
  clearbody n. cbv zeta.
  destruct ((e + n <=? -4) || (16 <? e + n)) eqn:Hexp.
  - (* exponent notation *)
    assert (Hm : m ≠ 0%N).
    { intros Hm. destruct (Hm0 Hm) as (-> & -> & ->). simpl in Hn. by subst n. }
    destruct (exponent_digits (Z.to_N (Z.abs (e + n - 1)))) as (Hpne & Hpds & Hpval).
    revert Hpne Hpds Hpval. cbv zeta.
    generalize (if (String.length (dec_string (Z.to_N (Z.abs (e + n - 1)))) <? 2)%nat
                then String "0" (dec_string (Z.to_N (Z.abs (e + n - 1))))
                else dec_string (Z.to_N (Z.abs (e + n - 1)))).
    intros p Hpne Hpds Hpval.
    cbn [string_take string_drop].
    eapply (float_literal_parse neg c EmptyString _ rest
              (if 1 <? n then Some ds else None)
              (Some (e + n - 1 <? 0, p))).
    + simpl. by rewrite Hc.
    + done.
    + by destruct (1 <? n).
    + destruct (1 <? n) eqn:H1.
      * rewrite string_app_assoc, string_app_cons. apply match_frac_digits; [|done|done].
        apply Z.ltb_lt in H1. destruct ds; simpl in *; [lia|done].
      * rewrite string_app_nil_l, string_app_cons. by apply match_frac_none.
    + rewrite !string_app_cons. by apply match_exp_digits.
    + right. eauto.
    + apply (float_of_literal_digits _ _ _ _ _ _ 0); [done|..].
      * rewrite N.mul_1_r, <- Hval.
        destruct (1 <? n) eqn:H1; simpl; [done|].
        apply Z.ltb_ge in H1. destruct ds; simpl in *; [done|lia].
      * lia.
      * intros _. rewrite Hpval.
        assert (String.length (default EmptyString (if 1 <? n then Some ds else None))
                = String.length ds) as ->.
        { destruct (1 <? n) eqn:H1; [done|]. apply Z.ltb_ge in H1.
          destruct ds; simpl in *; [done|lia]. }
        destruct (e + n - 1 <? 0) eqn:Hneg; lia.
  - apply orb_false_iff in Hexp as [Hlo%Z.leb_gt Hhi%Z.ltb_ge].
    destruct (e + n <=? 0) eqn:Hle; [|destruct (e + n <? n) eqn:Hlt].
    + (* 0.000ddd *)
      apply Z.leb_le in Hle.
      set (k := Z.to_nat (- (e + n))).
      eapply (float_literal_parse neg "0" EmptyString
                (String "." (zeros k +:+ String c ds)) rest
                (Some (zeros k +:+ String c ds)) None).
      * done.
      * done.
      * done.
      * rewrite string_app_cons. apply match_frac_digits; [|by rewrite all_digits_app, all_digits_zeros|done].
        by destruct k.
      * by apply match_exp_end.
      * left. eauto.
      * apply (float_of_literal_digits _ _ _ _ _ _ 0); [done|..].
        -- change (String "0" EmptyString +:+ default EmptyString (Some (zeros k +:+ String c ds)))
             with (zeros (S k) +:+ String c ds).
           rewrite N_of_digits_app, N_of_digits_zeros, Hval. lia.
        -- lia.
        -- intros _. cbn [default from_option id]. rewrite string_length_app, length_zeros.
           simpl String.length. lia.
    + (* ddd.ddd *)
      apply Z.leb_gt in Hle. apply Z.ltb_lt in Hlt.
      destruct (Z.to_nat (e + n)) as [|d] eqn:Hd; [lia|].
      cbn [string_take string_drop].
      eapply (float_literal_parse neg c (string_take d ds)
                (String "." (string_drop d ds)) rest
                (Some (string_drop d ds)) None).
      * simpl. by rewrite Hc, all_digits_take.
      * intros Hz. destruct (Hzero Hz) as [_ ->]. simpl in Hn. lia.
      * done.
      * rewrite string_app_cons. apply match_frac_digits; [|by apply all_digits_drop|done].
        intros Hempty. apply (f_equal String.length) in Hempty.
        rewrite length_string_drop in Hempty. simpl in Hempty. lia.
      * by apply match_exp_end.
      * left. eauto.
      * apply (float_of_literal_digits _ _ _ _ _ _ 0); [done|..].
        -- cbn [default from_option id]. rewrite string_app_cons, take_drop_string, Hval. lia.
        -- lia.
        -- intros _. cbn [default from_option id]. rewrite length_string_drop. lia.
    + (* ddd000.0 *)
      apply Z.leb_gt in Hle. apply Z.ltb_ge in Hlt.
      set (k := Z.to_nat (e + n - n)).
      replace (String c ds +:+ zeros k +:+ ".0")
        with (String c (ds +:+ zeros k) +:+ ".0")
        by (by rewrite <- string_app_cons, string_app_assoc).
      eapply (float_literal_parse neg c (ds +:+ zeros k) ".0" rest (Some "0") None).
      * simpl. by rewrite Hc, all_digits_app, Hds', all_digits_zeros.
      * intros Hz. destruct (Hzero Hz) as [Hm ->]. destruct (Hm0 Hm) as (He & _).
        unfold k. replace (e + n - n) with 0 by lia. done.
      * done.
      * change (".0" +:+ rest) with (String "." ("0" +:+ rest)).
        by apply match_frac_digits.
      * by apply match_exp_end.
      * left. eauto.
      * apply (float_of_literal_digits _ _ _ _ _ _ (S k)); [done|..].
        -- cbn [default from_option id]. rewrite <- string_app_cons, string_app_assoc, zeros_snoc.
           rewrite N_of_digits_app, N_of_digits_zeros, length_zeros, Hval. lia.
        -- cbn [default from_option id]. rewrite <- string_app_cons, !string_length_app, length_zeros. simpl. lia.
        -- intros _. cbn [default from_option id]. simpl String.length. lia.
Qed.

(** ** Reading back what the encoder writes *)

Lemma reads_back_None : reads_back PNone "null".
Proof.
  split; [by eexists _, _|]. split; [simpl; lia|].
  intros [|fuel] rest Hfuel _; [simpl in Hfuel; lia|reflexivity].
Qed.

Lemma reads_back_Bool (b : bool) : reads_back (PBool b) (if b then "true" else "false").
Proof.
  split; [destruct b; by eexists _, _|]. split; [destruct b; simpl; lia|].
  intros [|fuel] rest Hfuel _; [simpl in Hfuel; lia|by destruct b].
Qed.

Lemma reads_back_Int (z : Z) : reads_back (PInt z) (int_repr z).
Proof.
  split; [|split].
  - destruct (dec_string_spec (Z.to_N (Z.abs z))) as (c & ds & Hdec & Hds & _).
    simpl in Hds. apply andb_prop in Hds as [Hc _].
    destruct (digit_head_facts c Hc) as (_ & _ & _ & ? & _ & _ & _ & _ & ?).
    destruct z as [|p|p]; simpl in *; rewrite ?Hdec; by eexists _, _.
  - destruct (dec_string_spec (Z.to_N (Z.abs z))) as (c & ds & Hdec & _).
    destruct z as [|p|p]; simpl in *; rewrite ?Hdec; simpl; lia.
  - intros [|fuel] rest Hfuel Hrest; [simpl in Hfuel; lia|].
    by apply scan_once_int.
Qed.

Lemma reads_back_Float (f : pyfloat) :
  finite_float f = true → reads_back (PFloat f) (floatstr f).
Proof.
  intros Hf. destruct f as [| |neg m e]; try done.
  change (floatstr (FFinite neg m e)) with (float_repr_finite neg m e).
  destruct (match_number_float neg m e EmptyString Hf eq_refl)
    as (n & c & s & Htext & Hc & _).
  rewrite string_app_nil_r in Htext.
  split; [|split].
  - exists c, s. split; [done|].
    destruct Hc as [Hc | ->]; [|done].
    by destruct (digit_head_facts c Hc) as (_ & _ & _ & ? & _ & _ & _ & _ & ?).
  - rewrite Htext. simpl. lia.
  - intros [|fuel] rest Hfuel Hrest; [simpl in Hfuel; lia|].
    destruct (match_number_float neg m e rest Hf Hrest)
      as (n' & c' & s' & Htext' & Hc' & Hmatch & Hvalue & Hnrest).
    rewrite Htext', (scan_once_number _ _ _ _ Hc' Hmatch), Hvalue, Hnrest. done.
Qed.

Lemma reads_back_Str (s : string) : reads_back (PStr s) (encode_basestring_ascii s).
Proof.
  split; [by eexists _, _|]. split; [simpl; lia|].
  intros [|fuel] rest Hfuel _; [simpl in Hfuel; lia|].
  unfold encode_basestring_ascii. rewrite string_app_cons, string_app_assoc, string_app_cons, string_app_nil_l.
  cbn [scan_once]. change (Ascii.eqb dquote dquote) with true. cbv iota.
  by rewrite scanstring_escape.
Qed.

Lemma skip_ws_head (c : ascii) (t : string) :
  is_ws c = false → skip_ws (String c t) = String c t.
Proof. intros Hc. simpl. by rewrite Hc. Qed.

Lemma join_head (v : pyval) (t : string) (ts : list string) (after : string) :
  reads_back v t →
  ∃ c t', join ", " (t :: ts) +:+ after = String c t'
          ∧ is_ws c = false ∧ Ascii.eqb c "]" = false.
Proof.
  intros ((c & t' & -> & Hws & Hc) & _).
  destruct ts as [|t2 ts]; cbn [join]; rewrite !string_app_cons; eauto.
Qed.

(** The elements of an array, written with [", "] between them, up to the
    closing bracket. *)
Lemma scan_values_join (items : list pyval) (chunks : list string) :
  Forall2 reads_back items chunks → items ≠ [] →
  ∀ fuel rest,
    (foldr (λ x acc, S (weight x + acc)) 0 items ≤ fuel)%nat →
    scan_values fuel (join ", " chunks +:+ "]" +:+ rest) = Return (items, rest).
Proof.
  induction 1 as [|x t xs ts Hx Hxs IH]; [done|]. intros _ fuel rest Hfuel.
  destruct fuel as [|fuel]; [simpl in Hfuel; lia|]. simpl in Hfuel.
  destruct Hx as (Hhead & _ & Hread).
  destruct Hxs as [|x2 t2 xs ts Hx2 Hxs].
  - cbn [join scan_values].
    rewrite (Hread fuel ("]" +:+ rest)) by (lia || done).
    reflexivity.
  - change (join ", " (t :: t2 :: ts)) with (t +:+ ", " +:+ join ", " (t2 :: ts)).
    rewrite !string_app_assoc. cbn [scan_values].
    rewrite (Hread fuel _) by (lia || done).
    cbn [mbind outcome_mbind outcome_bind].
    change (", " +:+ join ", " (t2 :: ts) +:+ "]" +:+ rest)
      with (String "," (String " " (join ", " (t2 :: ts) +:+ "]" +:+ rest))).
    rewrite (skip_ws_head ",") by done. rewrite !strip_prefix_char.
    change (Ascii.eqb "," "]") with false. change (Ascii.eqb "," ",") with true.
    cbv iota.
    destruct (join_head x2 t2 ts ("]" +:+ rest) Hx2) as (c & t' & Heq & Hws & _).
    assert (skip_ws (String " " (join ", " (t2 :: ts) +:+ "]" +:+ rest))
            = join ", " (t2 :: ts) +:+ "]" +:+ rest) as ->.
    { rewrite Heq. simpl. by rewrite Hws. }
    rewrite IH by (done || simpl in *; lia). reflexivity.
Qed.

Lemma join_length {A} (w : A → nat) (items : list A) (chunks : list string) :
  Forall2 (λ v t, (w v ≤ String.length t)%nat) items chunks →
  (foldr (λ x acc, S (w x + acc)) 0 items ≤ S (String.length (join ", " chunks)))%nat.
Proof.
  induction 1 as [|x t xs ts Hx Hxs IH]; [simpl; lia|].
  destruct Hxs as [|x2 t2 xs ts Hx2 Hxs]; [simpl; lia|].
  change (join ", " (t :: t2 :: ts)) with (t +:+ ", " +:+ join ", " (t2 :: ts)).
  rewrite !string_length_app. simpl in *. lia.
Qed.

Lemma reads_back_List (items : list pyval) (chunks : list string) :
  Forall2 reads_back items chunks →
  reads_back (PList items) ("[" +:+ join ", " chunks +:+ "]").
Proof.
  intros Hitems. split; [by eexists _, _|]. split.
  - rewrite string_app_cons, string_app_nil_l. cbn [weight String.length]. rewrite string_length_app.
    pose proof (join_length weight items chunks) as Hlen.
    assert (Forall2 (λ v t, (weight v ≤ String.length t)%nat) items chunks) as Hw.
    { eapply Forall2_impl; [exact Hitems|]. by intros v t (_ & ? & _). }
    specialize (Hlen Hw). change (String.length "]") with 1%nat. lia.
  - intros [|fuel] rest Hfuel _; [simpl in Hfuel; lia|].
    rewrite !string_app_assoc, string_app_cons, string_app_nil_l. cbn [scan_once].
    change (Ascii.eqb "[" dquote) with false. change (Ascii.eqb "[" "{") with false.
    change (Ascii.eqb "[" "[") with true. cbv iota.
    destruct Hitems as [|x t xs ts Hx Hxs]; [reflexivity|].
    destruct (join_head x t ts ("]" +:+ rest) Hx) as (c & t' & Heq & Hws & Hc).
    rewrite Heq, skip_ws_head, strip_prefix_char, Hc by done. rewrite <- Heq.
    rewrite (scan_values_join (x :: xs) (t :: ts));
      [done|by constructor|done|].
    simpl in Hfuel. simpl. lia.
Qed.

(** The dict that the decoder builds from the pairs of an object. *)

Lemma dict_set_fresh (d : list (pyval * pyval)) (k : string) (v : pyval) :
  k ∉ omap str_key d → dict_set d k v = d ++ [(PStr k, v)].
Proof.
  induction d as [|[k0 v0] d IH]; intros Hk; [done|].
  destruct k0; simpl in *; try (by rewrite IH).
  apply not_elem_of_cons in Hk as [Hne Hk].
  rewrite (proj2 (String.eqb_neq _ _)) by done. by rewrite IH.
Qed.

Lemma dict_of_pairs_fresh (pairs : list (string * pyval)) : ∀ acc,
  NoDup (omap str_key acc ++ pairs.*1) →
  foldl (λ d kv, dict_set d kv.1 kv.2) acc pairs
  = acc ++ map (λ p, (PStr p.1, p.2)) pairs.
Proof.
  induction pairs as [|[k v] pairs IH]; intros acc Hnd; simpl.
  - by rewrite app_nil_r.
  - simpl in Hnd. apply NoDup_app in Hnd as (Hacc & Hdisj & Hpairs).
    apply NoDup_cons in Hpairs as [Hk Hpairs].
    rewrite dict_set_fresh by (intros Hin; apply (Hdisj k Hin); left).
    rewrite IH.
    + by rewrite <- app_assoc.
    + rewrite omap_app. simpl. rewrite <- app_assoc. simpl.
      apply NoDup_app. split; [done|]. split; [|by apply NoDup_cons].
      intros x Hx. apply Hdisj in Hx. done.
Qed.

Lemma dict_of_pairs_entries (entries : list (pyval * pyval)) :
  Forall (λ kv, ∃ k, kv.1 = PStr k) entries →
  NoDup (omap str_key entries) →
  dict_of_pairs (pairs_of entries) = entries.
Proof.
  intros Hkeys Hnd. unfold dict_of_pairs.
  assert ((pairs_of entries).*1 = omap str_key entries
          ∧ map (λ p, (PStr p.1, p.2)) (pairs_of entries) = entries) as [Hfst Hmap].
  { induction Hkeys as [|[k0 v0] entries [k Hk] _ IH]; [done|].
    simpl in Hk. subst k0. apply NoDup_cons in Hnd as [_ Hnd].
    destruct (IH Hnd) as [IH1 IH2]. split.
    - change (k :: (pairs_of entries).*1 = k :: omap str_key entries).
      by rewrite IH1.
    - change ((PStr k, v0) :: map (λ p, (PStr p.1, p.2)) (pairs_of entries)
              = (PStr k, v0) :: entries).
      by rewrite IH2. }
  rewrite dict_of_pairs_fresh by (by rewrite Hfst).
  by rewrite Hmap.
Qed.

Lemma entry_head (kv : pyval * pyval) (t : string) (ts : list string) (after : string) :
  entry_reads_back kv t →
  ∃ t', join ", " (t :: ts) +:+ after = String dquote t'.
Proof.
  intros (k & vt & _ & -> & _).
  destruct ts as [|t2 ts]; cbn [join]; unfold encode_basestring_ascii;
    rewrite !string_app_cons; eauto.
Qed.

(** One entry of an object, up to what follows its value. *)
Lemma scan_entry (k : string) (v : pyval) (vt after : string) (fuel : nat) :
  reads_back v vt → (weight v ≤ fuel)%nat → ends_number after = true →
  scanstring (escape_string k
              +:+ String dquote (": " +:+ vt +:+ after)) = Return (k, ": " +:+ vt +:+ after)
  ∧ skip_ws (": " +:+ vt +:+ after) = String ":" (String " " (vt +:+ after))
  ∧ scan_once fuel (skip_ws (String " " (vt +:+ after))) = Return (v, after).
Proof.
  intros ((c & t & -> & Hws & _) & _ & Hread) Hfuel Hafter.
  split; [apply scanstring_escape|]. split; [reflexivity|].
  rewrite string_app_cons. cbn [skip_ws]. change (is_ws " ") with true. cbv iota.
  rewrite Hws, <- string_app_cons. by apply Hread.
Qed.

Lemma entry_text (k vt after : string) :
  (encode_basestring_ascii k +:+ ": " +:+ vt) +:+ after
  = String dquote (escape_string k +:+ String dquote (": " +:+ vt +:+ after)).
Proof.
  unfold encode_basestring_ascii.
  rewrite (string_app_assoc _ (": " +:+ vt) after), (string_app_assoc ": " vt after).
  rewrite string_app_cons, (string_app_assoc (escape_string k)). reflexivity.
Qed.

Lemma scan_pairs_join (entries : list (pyval * pyval)) (chunks : list string) :
  Forall2 entry_reads_back entries chunks → entries ≠ [] →
  ∀ fuel rest,
    (foldr (λ kv acc, S (weight kv.2 + acc)) 0 entries ≤ fuel)%nat →
    scan_pairs fuel (join ", " chunks +:+ "}" +:+ rest)
    = Return (pairs_of entries, rest).
Proof.
  induction 1 as [|[k0 v] t xs ts Hx Hxs IH]; [done|]. intros _ fuel rest Hfuel.
  destruct fuel as [|fuel]; [simpl in Hfuel; lia|]. simpl in Hfuel.
  destruct Hx as (k & vt & Hk & -> & Hv). simpl in Hk, Hv. subst k0.
  change (pairs_of ((PStr k, v) :: xs)) with ((k, v) :: pairs_of xs).
  destruct Hxs as [|x2 t2 xs ts Hx2 Hxs].
  - cbn [join]. rewrite entry_text. cbn [scan_pairs].
    rewrite strip_prefix_char. change (Ascii.eqb dquote dquote) with true. cbv iota.
    destruct (scan_entry k v vt ("}" +:+ rest) fuel Hv ltac:(lia) eq_refl)
      as (Hkey & Hcolon & Hvalue).
    rewrite Hkey. cbn [mbind outcome_mbind outcome_bind]. rewrite Hcolon.
    rewrite strip_prefix_char. change (Ascii.eqb ":" ":") with true. cbv iota.
    rewrite Hvalue. reflexivity.
  - change (join ", " ((encode_basestring_ascii k +:+ ": " +:+ vt) :: t2 :: ts))
      with ((encode_basestring_ascii k +:+ ": " +:+ vt) +:+ ", "
            +:+ join ", " (t2 :: ts)).
    rewrite (string_app_assoc (_ +:+ ": " +:+ vt)), (string_app_assoc ", ").
    rewrite entry_text. cbn [scan_pairs].
    rewrite strip_prefix_char. change (Ascii.eqb dquote dquote) with true. cbv iota.
    destruct (scan_entry k v vt (", " +:+ join ", " (t2 :: ts) +:+ "}" +:+ rest) fuel
                Hv ltac:(lia) eq_refl) as (Hkey & Hcolon & Hvalue).
    rewrite Hkey. cbn [mbind outcome_mbind outcome_bind]. rewrite Hcolon.
    rewrite strip_prefix_char. change (Ascii.eqb ":" ":") with true. cbv iota.
    rewrite Hvalue. cbn [mbind outcome_mbind outcome_bind].
    change (", " +:+ join ", " (t2 :: ts) +:+ "}" +:+ rest)
      with (String "," (String " " (join ", " (t2 :: ts) +:+ "}" +:+ rest))).
    rewrite (skip_ws_head ",") by done. rewrite !strip_prefix_char.
    change (Ascii.eqb "," "}") with false. change (Ascii.eqb "," ",") with true.
    cbv iota.
    destruct (entry_head x2 t2 ts ("}" +:+ rest) Hx2) as (t' & Heq).
    assert (skip_ws (String " " (join ", " (t2 :: ts) +:+ "}" +:+ rest))
            = join ", " (t2 :: ts) +:+ "}" +:+ rest) as ->.
    { rewrite Heq. reflexivity. }
    rewrite IH by (done || simpl in *; lia). reflexivity.
Qed.

Lemma reads_back_Dict (entries : list (pyval * pyval)) (chunks : list string) :
  Forall2 entry_reads_back entries chunks →
  NoDup (omap str_key entries) →
  reads_back (PDict entries) ("{" +:+ join ", " chunks +:+ "}").
Proof.
  intros Hentries Hnd. split; [by eexists _, _|]. split.
  - rewrite string_app_cons, string_app_nil_l. cbn [weight String.length].
    rewrite string_length_app.
    pose proof (join_length (λ kv, weight kv.2) entries chunks) as Hlen.
    assert (Forall2 (λ kv t, (weight kv.2 ≤ String.length t)%nat) entries chunks) as Hw.
    { eapply Forall2_impl; [exact Hentries|].
      intros kv t (k & vt & _ & -> & _ & Hvt & _).
      rewrite !string_length_app. lia. }
    specialize (Hlen Hw). change (String.length "}") with 1%nat. lia.
  - intros [|fuel] rest Hfuel _; [simpl in Hfuel; lia|].
    rewrite !string_app_assoc, string_app_cons, string_app_nil_l. cbn [scan_once].
    change (Ascii.eqb "{" dquote) with false. change (Ascii.eqb "{" "{") with true.
    cbv iota.
    assert (Forall (λ kv, ∃ k, kv.1 = PStr k) entries) as Hkeys.
    { clear -Hentries. induction Hentries as [|kv t ?? (k & ? & ? & _)]; eauto. }
    destruct Hentries as [|x t xs ts Hx Hxs]; [reflexivity|].
    destruct (entry_head x t ts ("}" +:+ rest) Hx) as (t' & Heq).
    rewrite Heq, (skip_ws_head dquote), strip_prefix_char by done.
    change (Ascii.eqb dquote "}") with false. cbv iota. rewrite <- Heq.
    rewrite (scan_pairs_join (x :: xs) (t :: ts));
      [|by constructor|done|simpl in Hfuel; simpl; lia].
    cbn [mbind outcome_mbind outcome_bind].
    by rewrite dict_of_pairs_entries.
Qed.

(** Every native value is encoded, and the text is read back as the
    value. *)
Lemma dumps_reads_back : ∀ v,
  json_native v = true →
  ∃ text, Json.dumps NumpyJsonEncoder_default v = Return text ∧ reads_back v text.
Proof.
  pose proof shrinking_NumpyJsonEncoder_default as Hd.
  induction v as [|b|z|f|s|items IH|items IH|entries IH|s|a|cls|up]
    using pyval_nested_ind; intros Hnative; try done.
  - eexists. split; [reflexivity|apply reads_back_None].
  - exists (if b then "true" else "false"). split; [by destruct b|apply reads_back_Bool].
  - eexists. split; [reflexivity|apply reads_back_Int].
  - eexists. split; [reflexivity|by apply reads_back_Float].
  - eexists. split; [reflexivity|apply reads_back_Str].
  - assert (∃ chunks, outcome_mapM (Json.dumps NumpyJsonEncoder_default) items
                      = Return chunks ∧ Forall2 reads_back items chunks)
      as (chunks & Hchunks & Hread).
    { simpl in Hnative. induction IH as [|x items Hx _ IHitems]; [by exists []|].
      simpl in Hnative. apply andb_prop in Hnative as [Hnx Hnitems].
      destruct (Hx Hnx) as (t & Ht & Hrt). destruct (IHitems Hnitems) as (ts & Hts & Hrts).
      exists (t :: ts). simpl. rewrite Ht. simpl. rewrite Hts. simpl.
      split; [done|by constructor]. }
    rewrite dumps_list by done. rewrite Hchunks. simpl.
    eexists. split; [reflexivity|by apply reads_back_List].
  - simpl in Hnative. apply andb_prop in Hnative as [Hnative Hnd].
    apply bool_decide_eq_true in Hnd.
    assert (∃ chunks,
              outcome_mapM
                (λ kv, k ← Json.key_str kv.1;
                       v ← Json.dumps NumpyJsonEncoder_default kv.2;
                       Return (Json.encode_basestring_ascii k +:+ ": " +:+ v))
                entries = Return chunks
              ∧ Forall2 entry_reads_back entries chunks)
      as (chunks & Hchunks & Hread).
    { clear Hnd. induction IH as [|[k v] entries [_ Hv] _ IHentries]; [by exists []|].
      simpl in Hnative. apply andb_prop in Hnative as [Hnkv Hnentries].
      destruct k as [| | | |k| | | | | | |]; try done.
      destruct (Hv Hnkv) as (t & Ht & Hrt).
      destruct (IHentries Hnentries) as (ts & Hts & Hrts).
      exists ((Json.encode_basestring_ascii k +:+ ": " +:+ t) :: ts).
      cbn [outcome_mapM]. simpl in Ht. simpl. rewrite Ht. simpl. rewrite Hts. simpl.
      split; [done|]. constructor; [|done]. by exists k, t. }
    rewrite dumps_dict by done. rewrite Hchunks. simpl.
    eexists. split; [reflexivity|by apply reads_back_Dict].
Qed.

(** ** json.loads after jsonize *)

(** C8, as the specification states it, fails: a tuple is an ordered
    sequence; it is written as an array and read back as a list, which is
    not the tuple.  The floats [nan], [inf] and [-inf] are numbers; they
    are written as [NaN], [Infinity] and [-Infinity], which JSON does not
    have. *)
Lemma tuple_read_back_as_list :
  jsonize demo_str (PTuple [PInt 1; PInt 2]) = Return "[1, 2]"
  ∧ Json.loads "[1, 2]" = Return (PList [PInt 1; PInt 2])
  ∧ jsonize demo_str (PFloat FNan) = Return "NaN"
  ∧ ¬ roundtrip_on_json_types demo_str.
Proof.
  split; [reflexivity|]. split; [reflexivity|]. split; [reflexivity|].
  intros H. destruct (H (PTuple [PInt 1; PInt 2]) eq_refl) as (text & Htext & Hloads).
  vm_compute in Htext. injection Htext as <-.
  vm_compute in Hloads. discriminate Hloads.
Qed.

(** C8, amended.  For every value made only of [None], booleans, integers,
    finite floats, texts, lists, and dicts with text keys, [jsonize]
    returns a text, and [json.loads] of that text returns the value
    itself.  This does not extend to the other values of these types: a
    tuple of such values is written as the list of its items and read back
    as that list, and the floats [nan], [inf] and [-inf] are written as
    the tokens [NaN], [Infinity] and [-Infinity]. *)
Theorem jsonize_loads_roundtrip (py_str : pyval → outcome string) :
  (∀ value, json_native value = true →
            ∃ text, jsonize py_str value = Return text ∧ Json.loads text = Return value)
  ∧ (∀ items, forallb json_native items = true →
              ∃ text, jsonize py_str (PTuple items) = Return text
                      ∧ Json.loads text = Return (PList items))
  ∧ jsonize py_str (PFloat FNan) = Return "NaN"
  ∧ jsonize py_str (PFloat (FInf false)) = Return "Infinity"
  ∧ jsonize py_str (PFloat (FInf true)) = Return "-Infinity".
Proof.
  assert (Hroundtrip : ∀ value, json_native value = true →
            ∃ text, Json.dumps NumpyJsonEncoder_default value = Return text
                    ∧ Json.loads text = Return value).
  { intros value Hnative.
    destruct (dumps_reads_back value Hnative)
      as (text & Hdumps & (c & t & -> & Hws & _) & Hweight & Hread).
    exists (String c t). split; [done|].
    unfold Json.loads. rewrite skip_ws_head by done.
    specialize (Hread (S (String.length (String c t))) EmptyString ltac:(lia) eq_refl).
    rewrite string_app_nil_r in Hread. rewrite Hread. reflexivity. }
  split; [|split; [|by repeat split]].
  - intros value Hnative. destruct (Hroundtrip value Hnative) as (text & Hdumps & Hloads).
    exists text. split; [unfold jsonize; by rewrite Hdumps|done].
  - intros items Hitems.
    destruct (Hroundtrip (PList items) Hitems) as (text & Hdumps & Hloads).
    exists text. split; [|done]. unfold jsonize.
    rewrite dumps_tuple by apply shrinking_NumpyJsonEncoder_default.
    rewrite <- dumps_list by apply shrinking_NumpyJsonEncoder_default.
    by rewrite Hdumps.
Qed.

Lemma jsonize_loads_roundtrip_witness :
  ∃ text,
    jsonize demo_str
      (PDict [(PStr "x", PList [PInt 1; PFloat (FFinite true 25 (-1)); PNone]);
              (PStr "y", PStr "a b")]) = Return text
    ∧ Json.loads text
      = Return (PDict [(PStr "x", PList [PInt 1; PFloat (FFinite true 25 (-1)); PNone]);
                       (PStr "y", PStr "a b")]).
Proof.
  apply (proj1 (jsonize_loads_roundtrip demo_str)
           (PDict [(PStr "x", PList [PInt 1; PFloat (FFinite true 25 (-1)); PNone]);
                   (PStr "y", PStr "a b")])).
  vm_compute. reflexivity.
Defined.

(** * Further properties

    What the five functions do beyond the sentences above: the shape of
    the text [jsonize] returns, the numpy hook below the top level, the
    selectors and fallbacks of [to_batch_response], the spellings of the
    option of [to_cli]. *)

#[local] Arguments getitem : simpl never.

(** ** Printable texts *)

Lemma printable_app (s t : string) : printable (s +:+ t) = printable s && printable t.
Proof.
  induction s as [|c s IH]; [done|].
  rewrite string_app_cons. simpl. rewrite IH. by rewrite andb_assoc.
Qed.

Lemma printable_cons (c : ascii) (s : string) :
  printable (String c s)
  = (32 <=? N_of_ascii c)%N && (N_of_ascii c <=? 126)%N && printable s.
Proof. reflexivity. Qed.

Lemma printable_digits (s : string) : all_digits s = true → printable s = true.
Proof.
  induction s as [|c s IH]; [done|]. simpl.
  intros [Hc Hs]%andb_prop. rewrite IH by done.
  unfold is_digit in Hc. apply andb_prop in Hc as [H1%N.leb_le H2%N.leb_le].
  rewrite andb_true_r. apply andb_true_intro. split; apply N.leb_le; lia.
Qed.

Lemma printable_dec_string (n : N) : printable (dec_string n) = true.
Proof.
  destruct (dec_string_spec n) as (c & ds & -> & Hd & _). by apply printable_digits.
Qed.

Lemma printable_int_repr (z : Z) : printable (int_repr z) = true.
Proof.
  destruct z; unfold int_repr; [apply printable_dec_string..|].
  cbn [printable]. by rewrite printable_dec_string.
Qed.

Lemma printable_float_repr_finite neg m e : printable (float_repr_finite neg m e) = true.
Proof.
  unfold float_repr_finite.
  pose proof (dec_string_spec m) as (c & ds & Hdec & Hd & _).
  rewrite <- Hdec in Hd. clear Hdec. revert Hd.
  generalize (dec_string m). intros digits Hd.
  pose proof (printable_digits digits Hd) as Hp.
  pose proof (λ k, printable_digits _ (all_digits_take k digits Hd)) as Htake.
  pose proof (λ k, printable_digits _ (all_digits_drop k digits Hd)) as Hdrop.
  pose proof (λ k, printable_digits _ (all_digits_zeros k)) as Hzeros.
  assert (Hbody : ∀ b : string, printable b = true →
            printable (if neg then String "-" b else b) = true).
  { intros b Hb. destruct neg; [|done]. rewrite printable_cons. by rewrite Hb. }
  apply Hbody. clear Hbody.
  repeat case_match;
    rewrite ?printable_app, ?printable_cons, ?printable_app, ?printable_cons,
            ?printable_dec_string, ?Htake, ?Hdrop, ?Hzeros, ?Hp; done.
Qed.

Lemma printable_escape_char (c : ascii) : printable (escape_char c) = true.
Proof. by destruct c as [[] [] [] [] [] [] [] []]; vm_compute. Qed.

Lemma printable_escape_string (s : string) : printable (escape_string s) = true.
Proof.
  induction s as [|c s IH]; [done|].
  cbn [escape_string]. by rewrite printable_app, printable_escape_char, IH.
Qed.

Lemma printable_basestring (s : string) : printable (encode_basestring_ascii s) = true.
Proof.
  unfold encode_basestring_ascii.
  by rewrite printable_cons, printable_app, printable_escape_string.
Qed.

Lemma printable_floatstr (f : pyfloat) : printable (floatstr f) = true.
Proof. destruct f as [|[]|neg m e]; try done. apply printable_float_repr_finite. Qed.

Lemma printable_join (chunks : list string) :
  Forall (λ t, printable t = true) chunks → printable (join ", " chunks) = true.
Proof.
  induction 1 as [|t ts Ht Hts IH]; [done|].
  destruct ts as [|t2 ts]; [done|].
  change (join ", " (t :: t2 :: ts)) with (t +:+ ", " +:+ join ", " (t2 :: ts)).
  by rewrite !printable_app, Ht, IH.
Qed.

Lemma mapM_Forall {A B} (f : A → outcome B) (P : B → Prop) (l : list A) :
  (∀ x y, x ∈ l → f x = Return y → P y) →
  ∀ ys, outcome_mapM f l = Return ys → Forall P ys.
Proof.
  induction l as [|a l IH]; intros Hf ys; simpl.
  - by intros [= <-].
  - destruct (f a) as [b|e] eqn:Hfa; simpl; [|done].
    destruct (outcome_mapM f l) as [bs|e]; simpl; [|done].
    intros [= <-]. constructor.
    + apply (Hf a b); [left|done].
    + apply IH; [|done]. intros x y Hx. apply Hf. by right.
Qed.

(** Whatever the hook, what the encoder writes is printable ASCII. *)
Lemma iterencode_printable d fuel : ∀ o text,
  iterencode d fuel o = Return text → printable text = true.
Proof.
  induction fuel as [|fuel IH]; intros o text; [done|].
  assert (Hseq : ∀ items text,
            (chunks ← outcome_mapM (iterencode d fuel) items;
             Return ("[" +:+ join ", " chunks +:+ "]")) = Return text →
            printable text = true).
  { intros items t. destruct (outcome_mapM _ items) as [chunks|e] eqn:Hchunks; [|done].
    intros [= <-]. rewrite !printable_app, printable_join; [done|].
    eapply mapM_Forall; [|exact Hchunks]. intros x y _. apply IH. }
  destruct o as [|[]| | | |items|items|entries|s|a|cls|up]; cbn [iterencode];
    try (by intros [= <-]); try (apply Hseq).
  - intros [= <-]. apply printable_int_repr.
  - intros [= <-]. apply printable_floatstr.
  - intros [= <-]. apply printable_basestring.
  - destruct (outcome_mapM _ entries) as [chunks|e] eqn:Hchunks; [|done].
    intros [= <-]. rewrite !printable_app, printable_join; [done|].
    eapply mapM_Forall; [|exact Hchunks]. intros [k v] y _. simpl.
    destruct (key_str k) as [ks|e]; [|done]. simpl.
    destruct (iterencode d fuel v) as [vt|e] eqn:Hv; [|done].
    intros [= <-]. rewrite !printable_app, printable_basestring, (IH v vt Hv). done.
  - destruct (d (PNpGeneric s)) as [o'|e]; [|done]. simpl. apply IH.
  - destruct (d (PNdarray a)) as [o'|e]; [|done]. simpl. apply IH.
  - destruct (d (PObject cls)) as [o'|e]; [|done]. simpl. apply IH.
Qed.

(** ** The numpy hook below the top level *)

Lemma mapM_fmap {A B C} (f : B → outcome C) (g : A → B) (l : list A) :
  outcome_mapM f (map g l) = outcome_mapM (λ x, f (g x)) l.
Proof. induction l as [|a l IH]; [done|]. simpl. by rewrite IH. Qed.

Lemma dumps_unbox : ∀ o,
  dumps NumpyJsonEncoder_default (unbox o) = dumps NumpyJsonEncoder_default o.
Proof.
  pose proof shrinking_NumpyJsonEncoder_default as Hd.
  induction o as [|b|z|f|s|items IH|items IH|entries IH|s|a|cls|up]
    using pyval_nested_ind; try done.
  - cbn [unbox]. rewrite !dumps_list, mapM_fmap by done.
    rewrite Forall_forall in IH. by rewrite (mapM_ext _ _ items IH).
  - cbn [unbox]. rewrite !dumps_tuple, mapM_fmap by done.
    rewrite Forall_forall in IH. by rewrite (mapM_ext _ _ items IH).
  - cbn [unbox]. rewrite !dumps_dict, mapM_fmap by done.
    rewrite Forall_forall in IH. f_equal. apply mapM_ext.
    intros kv Hkv. simpl. by rewrite (proj2 (IH kv Hkv)).
  - symmetry. apply dumps_np_generic.
  - symmetry. apply dumps_ndarray.
Qed.

(** ** Reading a text back *)

Lemma reads_back_loads (v : pyval) (text : string) :
  reads_back v text → loads text = Return v.
Proof.
  intros ((c & t & -> & Hws & _) & Hweight & Hread).
  unfold loads. rewrite skip_ws_head by done.
  specialize (Hread (S (String.length (String c t))) EmptyString ltac:(lia) eq_refl).
  rewrite string_app_nil_r in Hread. rewrite Hread. reflexivity.
Qed.

Lemma dumps_loads (v : pyval) :
  json_native v = true →
  ∃ text, dumps NumpyJsonEncoder_default v = Return text ∧ loads text = Return v.
Proof.
  intros Hv. destruct (dumps_reads_back v Hv) as (text & Hdumps & Hread).
  exists text. split; [done|]. by apply reads_back_loads.
Qed.

Lemma jsonize_dumps (py_str : pyval → outcome string) (v : pyval) (text : string) :
  dumps NumpyJsonEncoder_default v = Return text → jsonize py_str v = Return text.
Proof. intros Hv. unfold jsonize. by rewrite Hv. Qed.

Lemma result_object_loads (text : string) :
  loads (result_object text) = Return (PDict [(PStr "result", PStr text)]).
Proof.
  destruct (dumps_loads (PDict [(PStr "result", PStr text)])) as (t & Ht & Hload).
  - vm_compute. reflexivity.
  - assert (dumps NumpyJsonEncoder_default (PDict [(PStr "result", PStr text)])
            = Return (result_object text)) as Heq by reflexivity.
    rewrite Heq in Ht. by injection Ht as <-.
Qed.

(** ** The values the encoder writes *)

Lemma mapM_Return_iff {A B} (f : A → outcome B) (l : list A) :
  (∃ ys, outcome_mapM f l = Return ys) ↔ ∀ x, x ∈ l → ∃ y, f x = Return y.
Proof.
  split.
  - intros [ys Hys] x [i Hi]%list_elem_of_lookup.
    destruct (mapM_Return_lookup _ _ _ Hys) as [_ Hall].
    destruct (Hall i x Hi) as (y & Hy & _). eauto.
  - intros Hall. apply mapM_total. intros i x Hx. apply Hall.
    by eapply list_elem_of_lookup_2.
Qed.

Lemma bind_Return_iff {A B} (m : outcome A) (k : A → B) :
  (∃ b, (a ← m; Return (k a)) = Return b) ↔ ∃ a, m = Return a.
Proof. destruct m as [a|e]; simpl; split; intros [x Hx]; eauto; done. Qed.

Lemma unbox_tolist_rec shape : ∀ elems,
  unbox (tolist_rec shape elems) = tolist_rec shape elems.
Proof.
  induction shape as [|n shape IH]; intros elems; simpl.
  - by destruct elems as [|[] ?].
  - f_equal. rewrite map_map. apply map_ext. intros k. apply IH.
Qed.

Lemma forallb_fmap_true {A B} (p : B → bool) (g : A → B) (l : list A) :
  forallb p (map g l) = true ↔ ∀ x, x ∈ l → p (g x) = true.
Proof.
  rewrite forallb_forall. split.
  - intros H x Hx. apply H, in_map. by apply list_elem_of_In.
  - intros H y (x & <- & Hx)%in_map_iff. by apply H, list_elem_of_In.
Qed.

Lemma dumps_plain_depth (n : nat) : ∀ v,
  (depth v ≤ n)%nat →
  (∃ text, dumps NumpyJsonEncoder_default v = Return text) ↔ plain (unbox v) = true.
Proof.
  pose proof shrinking_NumpyJsonEncoder_default as Hd.
  induction n as [|n IH]; intros v Hn; [pose proof (depth_pos v); lia|].
  assert (Hseq : ∀ items,
            (S (foldr (λ x, Nat.max (depth x)) 0 items) ≤ S n)%nat →
            (∃ chunks, outcome_mapM (dumps NumpyJsonEncoder_default) items = Return chunks)
            ↔ forallb plain (map unbox items) = true).
  { intros items Hitems. rewrite mapM_Return_iff, forallb_fmap_true.
    split; intros H x Hx; apply (IH x); auto;
      pose proof (depth_item_le x items Hx); lia. }
  destruct v as [|b|z|f|s|items|items|entries|s|a|cls|up]; cbn [unbox plain];
    try (split; [done|by eexists]); try (split; [by intros [? ?]|done]).
  - destruct b; (split; [done|by eexists]).
  - rewrite dumps_list, bind_Return_iff by done. apply Hseq. exact Hn.
  - rewrite dumps_tuple, bind_Return_iff by done. apply Hseq. exact Hn.
  - rewrite dumps_dict, bind_Return_iff, mapM_Return_iff, forallb_fmap_true by done.
    simpl in Hn.
    split; intros H [k v] Hkv; specialize (H (k, v) Hkv); simpl in *;
      pose proof (depth_entry_le (k, v) entries Hkv) as Hle; simpl in Hle;
      unfold basic_key in *.
    + destruct (key_str k) as [ks|e]; [|by destruct H]. simpl in *.
      apply (IH v); [lia|].
      destruct (dumps NumpyJsonEncoder_default v) as [vt|e]; [eauto|by destruct H].
    + apply andb_prop in H as [Hk Hv].
      destruct (key_str k) as [ks|e]; [|done]. simpl.
      apply (IH v) in Hv as [vt ->]; [|lia]. simpl. eauto.
  - destruct s as [[]| | | |]; try rewrite dumps_np_generic by done; simpl;
      try (split; [done|by eexists]); (split; [by intros [? ?]|done]).
  - rewrite dumps_ndarray. simpl in Hn.
    pose proof (depth_tolist_rec (nd_shape a) (nd_data a)) as Hdepth.
    pose proof (IH (tolist a)) as Hlist. unfold tolist in Hlist |- *.
    rewrite unbox_tolist_rec in Hlist. apply Hlist. lia.
Qed.

Lemma dumps_plain (v : pyval) :
  (∃ text, dumps NumpyJsonEncoder_default v = Return text) ↔ plain (unbox v) = true.
Proof. by apply (dumps_plain_depth (depth v)). Qed.

Lemma mapM_Return_ext {A B} (f g : A → outcome B) (l : list A) : ∀ ys,
  (∀ x y, x ∈ l → f x = Return y → g x = Return y) →
  outcome_mapM f l = Return ys → outcome_mapM g l = Return ys.
Proof.
  induction l as [|a l IH]; intros ys Hfg; simpl; [done|].
  destruct (f a) as [b|e] eqn:Hfa; simpl; [|done].
  rewrite (Hfg a b) by (left || done). simpl.
  destruct (outcome_mapM f l) as [bs|e]; simpl; [|done].
  intros [= <-]. rewrite (IH bs); [done| |done].
  intros x y Hx. apply Hfg. by right.
Qed.

(** ** NumpyJsonEncoder.default and jsonize *)

(** X1. The hook reaches the numpy values below the top level: the encoder
    gives the same outcome, text or exception, on a value and on the value
    with every numpy scalar and array in its lists, tuples and dict values
    replaced by [o.item()] and [o.tolist()]; so when the converted value is
    encoded as [text], [jsonize] of the value returns [text]. *)
Theorem numpy_converted_at_any_depth (py_str : pyval → outcome string) (value : pyval) :
  Json.dumps NumpyJsonEncoder_default value
  = Json.dumps NumpyJsonEncoder_default (unbox value)
  ∧ ∀ text, Json.dumps NumpyJsonEncoder_default (unbox value) = Return text →
            jsonize py_str value = Return text.
Proof.
  split; [symmetry; apply dumps_unbox|].
  intros text Htext. apply jsonize_dumps. by rewrite <- dumps_unbox.
Qed.

Lemma numpy_converted_at_any_depth_witness :
  jsonize demo_str
    (PList [PNpGeneric (NpInt 3); PTuple [PNdarray (NdArray [2]%nat [NpBool true; NpInt 0])]])
  = Return "[3, [[true, 0]]]".
Proof.
  exact (proj2 (numpy_converted_at_any_depth demo_str
                  (PList [PNpGeneric (NpInt 3);
                          PTuple [PNdarray (NdArray [2]%nat [NpBool true; NpInt 0])]]))
               "[3, [[true, 0]]]" eq_refl).
Defined.

(** X2. The first attempt of [jsonize] (line 40) succeeds exactly on the
    values that, numpy parts converted, are made of [None], booleans,
    integers, floats, texts, lists, tuples and dicts whose keys are [str],
    [int], [float], [bool] or [None]; on these [jsonize] returns the text of
    the value itself, whatever [str] does. *)
Theorem encoder_succeeds_on_plain_values (py_str : pyval → outcome string) (value : pyval) :
  ((∃ text, Json.dumps NumpyJsonEncoder_default value = Return text)
   ↔ plain (unbox value) = true)
  ∧ (plain (unbox value) = true →
     ∃ text, jsonize py_str value = Return text
             ∧ Json.dumps NumpyJsonEncoder_default value = Return text).
Proof.
  split; [apply dumps_plain|].
  intros [text Htext]%dumps_plain. exists text. split; [|done]. by apply jsonize_dumps.
Qed.

Lemma encoder_succeeds_on_plain_values_witness :
  ∃ text,
    jsonize demo_str
      (PDict [(PInt 1, PTuple [PFloat FNan; PNpGeneric (NpBool false)])]) = Return text
    ∧ Json.dumps NumpyJsonEncoder_default
        (PDict [(PInt 1, PTuple [PFloat FNan; PNpGeneric (NpBool false)])]) = Return text.
Proof.
  exact (proj2 (encoder_succeeds_on_plain_values demo_str
                  (PDict [(PInt 1, PTuple [PFloat FNan; PNpGeneric (NpBool false)])]))
               eq_refl).
Defined.

(** X3. On every other value that is not cyclic and holds no numpy scalar
    whose [item()] is a numpy scalar again, [jsonize] returns the wrapper
    of the text of the whole value, [{"result": str(value)}], also when
    one member or one key deep inside is what the encoder refuses; the
    wrapper is read back by [json.loads] as the dict with the one key
    [result]. *)
Theorem jsonize_wraps_whole_value
    (py_str : pyval → outcome string) (value : pyval) (text : string) :
  plain (unbox value) = false → cyclic value = false →
  holds_numpy (unbox value) = false →
  py_str value = Return text →
  jsonize py_str value = Return (result_object text)
  ∧ Json.loads (result_object text) = Return (PDict [(PStr "result", PStr text)]).
Proof.
  intros Hplain Hcyc Hnumpy Htext. split; [|apply result_object_loads].
  destruct (dumps NumpyJsonEncoder_default value) as [t|e] eqn:Hdumps.
  { assert (plain (unbox value) = true) by (apply dumps_plain; eauto). congruence. }
  destruct (dumps_raise _ _ Hdumps) as [Hty|[[_ Hc]|[_ Hn]]]; [|congruence..].
  unfold jsonize. rewrite Hdumps, (isinstance_TypeError _ Hty), Htext. reflexivity.
Qed.

Lemma jsonize_wraps_whole_value_witness :
  jsonize demo_str (PDict [(PStr "a", PInt 1); (PNpGeneric (NpInt 7), PInt 2)])
  = Return (result_object "dict")
  ∧ jsonize demo_str (PList [PInt 1; PList [PObject "Widget"]])
    = Return (result_object "list").
Proof.
  split.
  - exact (proj1 (jsonize_wraps_whole_value demo_str
                    (PDict [(PStr "a", PInt 1); (PNpGeneric (NpInt 7), PInt 2)]) "dict"
                    eq_refl eq_refl eq_refl eq_refl)).
  - exact (proj1 (jsonize_wraps_whole_value demo_str
                    (PList [PInt 1; PList [PObject "Widget"]]) "list"
                    eq_refl eq_refl eq_refl eq_refl)).
Defined.

(** X4. Every text that [jsonize] returns, from the encoder or from the
    fallback, is made of printable ASCII characters only: line breaks,
    control characters and characters above 126 of the texts in the value,
    and of [str(value)], are written as escapes. *)
Theorem jsonize_text_printable
    (py_str : pyval → outcome string) (value : pyval) (text : string) :
  jsonize py_str value = Return text → printable text = true.
Proof.
  unfold jsonize.
  destruct (dumps NumpyJsonEncoder_default value) as [t|e] eqn:Hdumps.
  - intros [= <-]. by eapply iterencode_printable.
  - destruct (isinstance _ _); [|done].
    destruct (py_str value) as [t|e']; [|done]. simpl.
    apply iterencode_printable.
Qed.

Lemma jsonize_text_printable_witness :
  let value := PList [PStr (String "010" (String "233" "x")); PObject "Widget"] in
  ∃ text, jsonize demo_str value = Return text ∧ printable text = true.
Proof.
  eexists. split; [reflexivity|].
  exact (jsonize_text_printable demo_str
           (PList [PStr (String "010" (String "233" "x")); PObject "Widget"]) _ eq_refl).
Defined.

(** X5. For every value that, numpy parts converted, is made of [None],
    booleans, integers, finite floats, texts, lists and dicts with text
    keys, [jsonize] returns a text that [json.loads] reads back as the
    converted value: numpy scalars come back as native numbers and arrays
    as nested lists, at any depth. *)
Theorem jsonize_loads_unboxed (py_str : pyval → outcome string) (value : pyval) :
  json_native (unbox value) = true →
  ∃ text, jsonize py_str value = Return text ∧ Json.loads text = Return (unbox value).
Proof.
  intros Hnative. destruct (dumps_loads _ Hnative) as (text & Hdumps & Hloads).
  exists text. split; [|done]. apply jsonize_dumps. by rewrite <- dumps_unbox.
Qed.

Lemma jsonize_loads_unboxed_witness :
  let value :=
    PDict [(PStr "rows", PNdarray (NdArray [2; 2]%nat [NpInt 1; NpInt 2; NpInt 3; NpInt 4]));
           (PStr "score", PList [PNpGeneric (NpFloat (FFinite false 5 (-1))); PNone])] in
  ∃ text,
    jsonize demo_str value = Return text
    ∧ Json.loads text
      = Return (PDict [(PStr "rows", PList [PList [PInt 1; PInt 2]; PList [PInt 3; PInt 4]]);
                       (PStr "score", PList [PFloat (FFinite false 5 (-1)); PNone])]).
Proof.
  exact (jsonize_loads_unboxed demo_str
           (PDict [(PStr "rows",
                    PNdarray (NdArray [2; 2]%nat [NpInt 1; NpInt 2; NpInt 3; NpInt 4]));
                   (PStr "score",
                    PList [PNpGeneric (NpFloat (FFinite false 5 (-1))); PNone])])
           eq_refl).
Defined.

(** X6. A tuple of native values is written as the list of the same items:
    [jsonize] returns the same text for both, and [json.loads] reads it
    back as the list, not as the tuple. *)
Theorem jsonize_tuple_as_list (py_str : pyval → outcome string) (items : list pyval) :
  forallb json_native items = true →
  ∃ text,
    jsonize py_str (PTuple items) = Return text
    ∧ jsonize py_str (PList items) = Return text
    ∧ Json.loads text = Return (PList items).
Proof.
  intros Hitems. destruct (dumps_loads (PList items) Hitems) as (text & Hdumps & Hloads).
  exists text. split; [|split; [by apply jsonize_dumps|done]].
  apply jsonize_dumps.
  rewrite dumps_tuple by apply shrinking_NumpyJsonEncoder_default.
  by rewrite <- dumps_list by apply shrinking_NumpyJsonEncoder_default.
Qed.

Lemma jsonize_tuple_as_list_witness :
  ∃ text,
    jsonize demo_str (PTuple [PInt 1; PStr "a"]) = Return text
    ∧ jsonize demo_str (PList [PInt 1; PStr "a"]) = Return text
    ∧ Json.loads text = Return (PList [PInt 1; PStr "a"]).
Proof. exact (jsonize_tuple_as_list demo_str [PInt 1; PStr "a"] eq_refl). Defined.

(** X7. Dict keys that are not texts are written as texts: when the texts
    that [json.dumps] writes for the keys of a dict are pairwise different
    and the encoder returns [text] for the dict, [jsonize] returns [text]
    for it and for the dict whose keys are replaced by these texts ([1] by
    ["1"], [None] by ["null"], [True] by ["true"]). *)
Theorem jsonize_keys_written_as_text
    (py_str : pyval → outcome string) (entries : list (pyval * pyval)) (text : string) :
  distinct_key_texts entries = true →
  Json.dumps NumpyJsonEncoder_default (PDict entries) = Return text →
  jsonize py_str (PDict entries) = Return text
  ∧ jsonize py_str (PDict (text_keys entries)) = Return text
  ∧ NoDup (map fst (text_keys entries)).
Proof.
  pose proof shrinking_NumpyJsonEncoder_default as Hd.
  intros Hkeys Hdumps. split; [by apply jsonize_dumps|]. split.
  - apply jsonize_dumps.
    rewrite dumps_dict in Hdumps |- * by done. unfold text_keys. rewrite mapM_fmap.
    destruct (outcome_mapM _ entries) as [chunks|e] eqn:Hchunks in Hdumps;
      [|discriminate Hdumps].
    rewrite (mapM_Return_ext _ _ entries chunks) with (2 := Hchunks); [done|].
    intros [k v] y _. simpl. unfold key_text.
    by destruct (key_str k) as [ks|e].
  - unfold distinct_key_texts in Hkeys. apply bool_decide_eq_true in Hkeys.
    unfold text_keys. rewrite map_map. simpl.
    change (map (λ x : pyval * pyval, PStr (key_text x.1)) entries)
      with (map (PStr ∘ (λ kv : pyval * pyval, key_text kv.1)) entries).
    rewrite (list_fmap_compose (λ kv : pyval * pyval, key_text kv.1) PStr).
    apply NoDup_fmap_2_strong; [|exact Hkeys]. by intros ?? _ _ [= ->].
Qed.

Lemma jsonize_keys_written_as_text_witness :
  ∃ text,
    jsonize demo_str (PDict [(PInt 1, PStr "a"); (PNone, PBool true)]) = Return text
    ∧ jsonize demo_str (PDict [(PStr "1", PStr "a"); (PStr "null", PBool true)])
      = Return text.
Proof.
  eexists.
  pose proof (jsonize_keys_written_as_text demo_str
                [(PInt 1, PStr "a"); (PNone, PBool true)] _
                ltac:(vm_compute; reflexivity) eq_refl) as (H1 & H2 & _).
  split; [exact H1|exact H2].
Defined.

(** X8. [jsonize] gives different texts to different native values: the
    text determines the value ([1] and [1.0] are told apart). *)
Theorem jsonize_distinguishes_native_values
    (py_str : pyval → outcome string) (v1 v2 : pyval) :
  json_native v1 = true → json_native v2 = true → v1 ≠ v2 →
  jsonize py_str v1 ≠ jsonize py_str v2.
Proof.
  intros H1 H2 Hne Heq.
  destruct (dumps_loads v1 H1) as (t1 & Hd1 & Hl1).
  destruct (dumps_loads v2 H2) as (t2 & Hd2 & Hl2).
  rewrite (jsonize_dumps py_str v1 t1 Hd1), (jsonize_dumps py_str v2 t2 Hd2) in Heq.
  injection Heq as ->. rewrite Hl1 in Hl2. by injection Hl2.
Qed.

Lemma jsonize_distinguishes_native_values_witness :
  jsonize demo_str (PInt 1) ≠ jsonize demo_str (PFloat (FFinite false 1 0)).
Proof.
  apply (jsonize_distinguishes_native_values demo_str (PInt 1) (PFloat (FFinite false 1 0)));
    [reflexivity|reflexivity|discriminate].
Defined.

(** ** The traversal, continued *)

Lemma mapM_app {A B} (f : A → outcome B) (l1 l2 : list A) :
  outcome_mapM f (l1 ++ l2)
  = ys1 ← outcome_mapM f l1; ys2 ← outcome_mapM f l2; Return (ys1 ++ ys2).
Proof.
  induction l1 as [|a l1 IH]; simpl.
  - by destruct (outcome_mapM f l2).
  - destruct (f a) as [b|e]; simpl; [|done]. rewrite IH.
    destruct (outcome_mapM f l1) as [bs|e]; simpl; [|done].
    by destruct (outcome_mapM f l2).
Qed.

Lemma mapM_Return_intro {A B} (f : A → outcome B) (l : list A) : ∀ ys,
  length ys = length l →
  (∀ i x y, l !! i = Some x → ys !! i = Some y → f x = Return y) →
  outcome_mapM f l = Return ys.
Proof.
  induction l as [|a l IH]; intros [|y ys] Hlen Hall; simpl in *; try done.
  rewrite (Hall 0%nat a y) by done. simpl.
  rewrite (IH ys); [done|lia|]. intros i x y'. apply (Hall (S i)).
Qed.

Lemma mapM_ext_lookup {A B} (f g : A → outcome B) (l : list A) :
  (∀ i x, l !! i = Some x → f x = g x) → outcome_mapM f l = outcome_mapM g l.
Proof.
  intros Hfg. apply mapM_ext. intros x [i Hi]%list_elem_of_lookup. by eapply Hfg.
Qed.


(** ** to_batch_response, continued *)






Lemma mapM_respond_fallbacks (py_str : pyval → outcome string) (result_conc : sequence)
    (slices : list (option index)) : ∀ fallbacks1 fallbacks2,
  length fallbacks1 = length fallbacks2 →
  (∀ j, slices !! j = Some None → fallbacks1 !! j = fallbacks2 !! j) →
  outcome_mapM (caller_response py_str result_conc) (zip slices fallbacks1)
  = outcome_mapM (caller_response py_str result_conc) (zip slices fallbacks2).
Proof.
  induction slices as [|s slices IH]; intros [|f1 fs1] [|f2 fs2] Hlen Hnone;
    simpl in *; try done.
  rewrite (IH fs1 fs2); [|lia|intros j; apply (Hnone (S j))].
  unfold caller_response at 1 3. simpl. destruct s as [ix|]; [done|].
  specialize (Hnone 0%nat eq_refl). simpl in Hnone. by injection Hnone as ->.
Qed.

(** The two places an exception of [jsonize] comes from: the encoder, when
    the [except] clause of line 41 does not name it, and [str] in the
    fallback. *)
Lemma jsonize_Raise (py_str : pyval → outcome string) (v : pyval) (e : pyexn) :
  jsonize py_str v = Raise e →
  (dumps NumpyJsonEncoder_default v = Raise e
   ∧ isinstance e [TypeError; OverflowError] = false)
  ∨ (py_str v = Raise e
     ∧ ∃ e0, dumps NumpyJsonEncoder_default v = Raise e0
             ∧ isinstance e0 [TypeError; OverflowError] = true).
Proof.
  unfold jsonize.
  destruct (dumps NumpyJsonEncoder_default v) as [t|e0] eqn:Hdumps; [done|].
  destruct (isinstance e0 [TypeError; OverflowError]) eqn:He0.
  - destruct (py_str v) as [text|e1]; simpl; [by rewrite dumps_result_object|].
    intros [= ->]. right. eauto.
  - intros [= ->]. by left.
Qed.

(** The encoder raises [TypeError], [ValueError] or [RecursionError],
    which all derive from [Exception] and are no [AssertionError]. *)
Lemma dumps_raise_class (v : pyval) (e : pyexn) :
  dumps NumpyJsonEncoder_default v = Raise e →
  isinstance e [AssertionError] = false ∧ isinstance e [Exception] = true.
Proof.
  intros [Hty|[[-> _]|[Hty _]]]%dumps_raise; [| done |];
    unfold isinstance; by rewrite Hty.
Qed.

(** When [str] raises only exceptions that derive from [Exception], so
    does [jsonize]. *)
Lemma contained_when_str_is (py_str : pyval → outcome string) (result : pyval) :
  raises_exceptions_only py_str → contained py_str result.
Proof.
  intros Hstr e [[Hdumps _]|[He _]]%jsonize_Raise.
  - by destruct (dumps_raise_class _ _ Hdumps).
  - by eapply Hstr.
Qed.








(** X13. Batches compose: the call on the selectors and fallbacks of two
    batches put one after the other (the first with as many fallbacks as
    selectors) returns the responses of the first followed by those of the
    second, and raises when one of the two does. *)
Theorem to_batch_response_app
    (py_str : pyval → outcome string) (self : JsonSerializableOutput)
    (result_conc : sequence) (slices1 slices2 : list (option index))
    (fallbacks1 fallbacks2 : list (option SimpleResponse))
    (requests : option (list SimpleRequest)) :
  length slices1 = length fallbacks1 →
  to_batch_response py_str self result_conc
    (Some (slices1 ++ slices2)) (Some (fallbacks1 ++ fallbacks2)) requests
  = out1 ← to_batch_response py_str self result_conc
             (Some slices1) (Some fallbacks1) requests;
    out2 ← to_batch_response py_str self result_conc
             (Some slices2) (Some fallbacks2) requests;
    Return (out1 ++ out2).
Proof.
  intros Hlen. rewrite !to_batch_response_eq.
  unfold fallbacks_of, selectors_of. cbn [default from_option id].
  rewrite !zip_with_app by done. rewrite mapM_app.
  destruct (outcome_mapM _ (zip slices1 fallbacks1)) as [news1|e]; [|done]. simpl.
  destruct (outcome_mapM _ (zip slices2 fallbacks2)) as [news2|e]; [|done]. simpl.
  rewrite !length_app, !length_zip.
  replace (length slices1 - length slices1 `min` length fallbacks1)%nat with 0%nat by lia.
  replace (length slices1 + length slices2
           - (length slices1 `min` length fallbacks1
              + length slices2 `min` length fallbacks2))%nat
    with (length slices2 - length slices2 `min` length fallbacks2)%nat by lia.
  simpl. by rewrite app_nil_r, app_assoc.
Qed.

Lemma to_batch_response_app_witness :
  to_batch_response demo_str demo_self (ListOf [PInt 1; PObject "Strict"])
    (Some ([Some (Index 1); None] ++ [Some (Index 0)]))
    (Some ([None; Some demo_fallback] ++ [None])) None
  = Return ([Some (mkSimpleResponse 400 None "payload rejected"); Some demo_fallback]
            ++ [ok_response "1"]).
Proof.
  exact (to_batch_response_app demo_str demo_self (ListOf [PInt 1; PObject "Strict"])
           [Some (Index 1); None] [Some (Index 0)]
           [None; Some demo_fallback] [None] None eq_refl).
Defined.

(** X14. The fallback of a caller whose selector is not [None] is never
    used: two fallback lists of the same length that agree at the
    positions with selector [None] give the same outcome. *)
Theorem to_batch_response_fallback_unused
    (py_str : pyval → outcome string) (self : JsonSerializableOutput)
    (result_conc : sequence) (slices : list (option index))
    (fallbacks1 fallbacks2 : list (option SimpleResponse))
    (requests : option (list SimpleRequest)) :
  length fallbacks1 = length fallbacks2 →
  (∀ j, slices !! j = Some None → fallbacks1 !! j = fallbacks2 !! j) →
  to_batch_response py_str self result_conc (Some slices) (Some fallbacks1) requests
  = to_batch_response py_str self result_conc (Some slices) (Some fallbacks2) requests.
Proof.
  intros Hlen Hnone. rewrite !to_batch_response_eq.
  unfold fallbacks_of, selectors_of. cbn [default from_option id].
  rewrite (mapM_respond_fallbacks _ _ _ fallbacks1 fallbacks2) by done.
  by rewrite !length_zip, Hlen.
Qed.

Lemma to_batch_response_fallback_unused_witness :
  to_batch_response demo_str demo_self (ListOf [PInt 1])
    (Some [Some (Index 0); None]) (Some [Some demo_fallback; Some demo_fallback]) None
  = to_batch_response demo_str demo_self (ListOf [PInt 1])
      (Some [Some (Index 0); None]) (Some [None; Some demo_fallback]) None.
Proof.
  apply (to_batch_response_fallback_unused demo_str demo_self (ListOf [PInt 1])
           [Some (Index 0); None] [Some demo_fallback; Some demo_fallback]
           [None; Some demo_fallback] None); [reflexivity|].
  intros [|[|j]]; simpl; intros [=]. reflexivity.
Defined.

(** X15. When every selector is [None] the result collection is not read:
    the call returns the fallbacks as they are, whatever [result_conc]
    holds. *)
Theorem to_batch_response_all_none
    (py_str : pyval → outcome string) (self : JsonSerializableOutput)
    (result_conc : sequence) (n : nat) (fallbacks : list (option SimpleResponse))
    (requests : option (list SimpleRequest)) :
  length fallbacks = n →
  to_batch_response py_str self result_conc
    (Some (replicate n None)) (Some fallbacks) requests
  = Return fallbacks.
Proof.
  intros <-. rewrite to_batch_response_eq.
  unfold fallbacks_of, selectors_of. cbn [default from_option id].
  rewrite (mapM_Return_intro _ _ fallbacks).
  - simpl. rewrite length_zip, length_replicate, Nat.min_id, Nat.sub_diag. simpl.
    by rewrite app_nil_r.
  - rewrite length_zip, length_replicate. lia.
  - intros i [s f] y [Hs Hf]%lookup_zip_Some Hy. simpl in Hs, Hf.
    apply lookup_replicate in Hs as [-> _]. unfold caller_response. simpl. congruence.
Qed.

Lemma to_batch_response_all_none_witness :
  to_batch_response demo_str demo_self (ListOf [])
    (Some [None; None]) (Some [Some demo_fallback; None]) None
  = Return [Some demo_fallback; None].
Proof.
  exact (to_batch_response_all_none demo_str demo_self (ListOf []) 2
           [Some demo_fallback; None] None eq_refl).
Defined.

(** X16. The results that no caller selects are never read nor encoded:
    two result collections on which [result_conc[s]] agrees for the
    selectors that the loop reaches give the same outcome. *)
Theorem to_batch_response_reads_selected_only
    (py_str : pyval → outcome string) (self : JsonSerializableOutput)
    (result_conc1 result_conc2 : sequence) (slices : list (option index))
    (fallbacks : option (list (option SimpleResponse)))
    (requests : option (list SimpleRequest)) :
  (∀ j ix f, slices !! j = Some (Some ix) →
             fallbacks_of result_conc1 (Some slices) fallbacks !! j = Some f →
             getitem result_conc1 ix = getitem result_conc2 ix) →
  to_batch_response py_str self result_conc1 (Some slices) fallbacks requests
  = to_batch_response py_str self result_conc2 (Some slices) fallbacks requests.
Proof.
  intros Hsame. rewrite !to_batch_response_eq.
  assert (fallbacks_of result_conc2 (Some slices) fallbacks
          = fallbacks_of result_conc1 (Some slices) fallbacks) as -> by done.
  unfold selectors_of. cbn [default from_option id].
  rewrite (mapM_ext_lookup (caller_response py_str result_conc1)
             (caller_response py_str result_conc2)); [done|].
  intros j [s f] [Hs Hf]%lookup_zip_Some. simpl in Hs, Hf.
  unfold caller_response. simpl. destruct s as [ix|]; [|done].
  by rewrite (Hsame j ix f Hs Hf).
Qed.

Lemma to_batch_response_reads_selected_only_witness :
  to_batch_response demo_str demo_self (ListOf [PInt 1; PList [PBackRef 0]])
    (Some [Some (Index 0); None]) None None
  = to_batch_response demo_str demo_self (ListOf [PInt 1; PObject "Strict"; PNone])
      (Some [Some (Index 0); None]) None None.
Proof.
  apply (to_batch_response_reads_selected_only demo_str demo_self
           (ListOf [PInt 1; PList [PBackRef 0]])
           (ListOf [PInt 1; PObject "Strict"; PNone])
           [Some (Index 0); None] None None).
  intros [|[|j]] ix f; simpl; intros [= <-] _; reflexivity.
Defined.



(** X18. Where the error responses come from.  For a caller of a call that
    returns whose result is fetched, the response has status 200, 400 or
    500; it is 200 whenever the result, numpy parts converted, is a value
    the encoder writes; a 400 means that [str(result)] raised an
    [AssertionError] in the fallback of [jsonize]; a 500 means that the
    encoder raised an exception that is neither a [TypeError] nor an
    [OverflowError] (on a cyclic value, on a numpy scalar whose [item()] is
    a numpy scalar again), or that [str(result)] raised in the fallback an
    exception that derives from [Exception] and is no [AssertionError];
    the body is the text of that exception. *)
Theorem to_batch_response_error_origin
    (py_str : pyval → outcome string) (self : JsonSerializableOutput)
    (result_conc : sequence) (slices : option (list (option index)))
    (fallbacks : option (list (option SimpleResponse)))
    (requests : option (list SimpleRequest))
    (out : list (option SimpleResponse)) (j : nat)
    (ix : index) (f : option SimpleResponse) (result : pyval) :
  to_batch_response py_str self result_conc slices fallbacks requests = Return out →
  selectors_of result_conc slices !! j = Some (Some ix) →
  fallbacks_of result_conc slices fallbacks !! j = Some f →
  getitem result_conc ix = Return result →
  ∃ r,
    out !! j = Some (Some r)
    ∧ (status r = 200 ∨ status r = 400 ∨ status r = 500)
    ∧ (plain (unbox result) = true → status r = 200)
    ∧ (status r = 400 →
       ∃ e, py_str result = Raise e ∧ isinstance e [AssertionError] = true
            ∧ data r = str_exn e)
    ∧ (status r = 500 →
       ∃ e, data r = str_exn e
            ∧ isinstance e [AssertionError] = false
            ∧ isinstance e [Exception] = true
            ∧ ((Json.dumps NumpyJsonEncoder_default result = Raise e
                ∧ isinstance e [TypeError; OverflowError] = false)
               ∨ py_str result = Raise e)).
Proof.
  intros Hout Hs Hf Hget.
  destruct (to_batch_response_lookup _ _ _ _ _ _ _ _ _ _ Hout Hs Hf) as (r0 & Hr & Hj).
  unfold caller_response in Hr. simpl in Hr. rewrite Hget in Hr. simpl in Hr.
  destruct (response_of (jsonize py_str result)) as [r|e'] eqn:Hresp; [|done].
  injection Hr as <-. exists r. split; [exact Hj|]. unfold response_of in Hresp.
  destruct (jsonize py_str result) as [payload|e] eqn:Hjson.
  - injection Hresp as <-. simpl. repeat split; auto; discriminate.
  - assert (Hnot : plain (unbox result) = true → status r = 200).
    { intros [t Ht]%dumps_plain. rewrite (jsonize_dumps py_str result t Ht) in Hjson.
      discriminate Hjson. }
    destruct (isinstance e [AssertionError]) eqn:Ha.
    + injection Hresp as <-. simpl.
      repeat split; auto; try discriminate. intros _. exists e.
      destruct (jsonize_Raise _ _ _ Hjson) as [[Hdumps _]|[Hstr _]]; [|done].
      destruct (dumps_raise_class _ _ Hdumps). congruence.
    + destruct (isinstance e [Exception]) eqn:He; [|done].
      injection Hresp as <-. simpl.
      repeat split; auto; try discriminate. intros _. exists e.
      repeat split; try done.
      destruct (jsonize_Raise _ _ _ Hjson) as [?|[Hstr _]]; [by left|by right].
Qed.

Lemma to_batch_response_error_origin_witness :
  ∃ out r,
    to_batch_response demo_str demo_self
      (ListOf [PObject "Strict"; PList [PBackRef 0]; PInt 1]) None None None = Return out
    ∧ out !! 0%nat = Some (Some r)
    ∧ (status r = 400 →
       ∃ e, demo_str (PObject "Strict") = Raise e
            ∧ isinstance e [AssertionError] = true ∧ data r = str_exn e).
Proof.
  destruct (to_batch_response_error_origin demo_str demo_self
              (ListOf [PObject "Strict"; PList [PBackRef 0]; PInt 1]) None None None
              [Some (mkSimpleResponse 400 None "payload rejected");
               Some (mkSimpleResponse 500 None "Circular reference detected");
               ok_response "1"]
              0 (Index 0) None (PObject "Strict") eq_refl eq_refl eq_refl eq_refl)
    as (r & Hr & _ & _ & H400 & _).
  eexists _, r. split; [reflexivity|]. split; [exact Hr|exact H400].
Defined.

(** ** to_cli, continued *)

#[local] Abbreviation cli_reg := (Argparse.option_string_actions cli_parser).

(** One [flag value] pair at the head of the arguments stores the value. *)
Lemma parse_loop_pair (flag v : string) (rest : list string)
    (ns : gmap string string) (extras : list string) :
  flag ∈ ["-o"; "--output"] → v ∈ ["str"; "json"] →
  Argparse.parse_loop cli_reg (flag :: v :: rest) ns extras
  = Argparse.parse_loop cli_reg rest (<["output" := v]> ns) extras.
Proof.
  rewrite !elem_of_cons, !elem_of_nil.
  intros [-> | [-> | []]] [-> | [-> | []]];
    cbn [Argparse.parse_loop];
    match goal with |- context [String.eqb ?a "--"] =>
      change (String.eqb a "--") with false end;
    match goal with |- context [Argparse.parse_optional ?r ?a] =>
      let t := eval vm_compute in (Argparse.parse_optional r a) in
      change (Argparse.parse_optional r a) with t end;
    cbn [Argparse.consume_plain head];
    match goal with |- context [Argparse.is_argument ?r ?a] =>
      let t := eval vm_compute in (Argparse.is_argument r a) in
      change (Argparse.is_argument r a) with t end;
    reflexivity.
Qed.

Lemma parse_loop_pairs (pairs : list (string * string)) : ∀ ns,
  Forall (λ fv, fv.1 ∈ ["-o"; "--output"] ∧ fv.2 ∈ ["str"; "json"]) pairs →
  Argparse.parse_loop cli_reg (option_args pairs) ns []
  = Argparse.Namespace (foldl (λ ns fv, <["output" := fv.2]> ns) ns pairs).
Proof.
  induction pairs as [|[flag v] pairs IH]; intros ns Hpairs; [done|].
  apply Forall_cons in Hpairs as [[Hflag Hv] Hpairs]. simpl in Hflag, Hv.
  change (option_args ((flag, v) :: pairs)) with (flag :: v :: option_args pairs).
  rewrite parse_loop_pair by done. by rewrite IH.
Qed.

Lemma stored_output (pairs : list (string * string)) : ∀ ns : gmap string string,
  foldl (λ ns fv, <["output" := fv.2]> ns) ns pairs !! "output"
  = match last (pairs.*2) with
    | Some v => Some v
    | None => ns !! "output"
    end.
Proof.
  induction pairs as [|[flag v] pairs IH]; intros ns; [done|].
  cbn [foldl]. rewrite IH, fmap_cons, last_cons. cbn [snd].
  destruct (last (pairs.*2)); [done|]. by rewrite lookup_insert_eq.
Qed.

(** With an argument string left over, the parser never returns. *)
Lemma parse_loop_extras reg n : ∀ args ns extras ns',
  (length args ≤ n)%nat → extras ≠ [] →
  Argparse.parse_loop reg args ns extras ≠ Argparse.Namespace ns'.
Proof.
  induction n as [|n IH]; intros args ns extras ns' Hlen Hextras;
    (destruct args as [|arg rest]; [simpl; by destruct extras|]);
    simpl in Hlen; [lia|].
  cbn [Argparse.parse_loop].
  destruct (String.eqb arg "--"); [done|].
  assert (Hmore : extras ++ [arg] ≠ []) by (by destruct extras).
  destruct (Argparse.parse_optional reg arg) as [| | |a os explicit];
    [apply IH; [lia|done] | apply IH; [lia|done] | done |].
  match goal with
  | |- match ?c with _ => _ end ≠ _ => destruct c as [[queue taken]|]; [|done]
  end.
  destruct (Argparse.take_actions queue ns) as [ns1|code]; [|done].
  destruct taken; [destruct rest as [|v rest']; [done|]|];
    apply IH; simpl in *; (lia || done).
Qed.

(** X19. When the option is given several times, each time with one of
    its two choices, the last occurrence decides the mode: [json] prints
    [jsonize(result)], [str] (and no occurrence at all) prints
    [str(result)]. *)
Theorem to_cli_last_option_wins
    (py_str : pyval → outcome string) (self : JsonSerializableOutput)
    (result : pyval) (pairs : list (string * string)) :
  Forall (λ fv, fv.1 ∈ ["-o"; "--output"] ∧ fv.2 ∈ ["str"; "json"]) pairs →
  to_cli py_str self result (option_args pairs)
  = cli_print (if bool_decide (last (pairs.*2) = Some "json")
               then jsonize py_str result else py_str result).
Proof.
  intros Hpairs. rewrite to_cli_eq. unfold Argparse.parse_args.
  rewrite parse_loop_pairs by done.
  rewrite stored_output.
  destruct (last (pairs.*2)) as [v|]; [done|].
  reflexivity.
Qed.

Lemma to_cli_last_option_wins_witness :
  to_cli demo_str demo_self (PList [PInt 1])
    ["-o"; "json"; "--output"; "str"; "-o"; "json"]
  = CliPrinted ("[1]" +:+ newline).
Proof.
  apply (to_cli_last_option_wins demo_str demo_self (PList [PInt 1])
           [("-o", "json"); ("--output", "str"); ("-o", "json")]).
  repeat constructor.
Defined.

(** X20. The parser of [to_cli] accepts the abbreviations of the long flag
    and the attached forms: with a choice [v], every prefix of [--output]
    of at least three characters followed by [v], [--output=v], [-ov] and
    [-o=v] all do what [--output v] does. *)
Theorem to_cli_option_spellings
    (py_str : pyval → outcome string) (self : JsonSerializableOutput)
    (result : pyval) (v : string) :
  v ∈ ["str"; "json"] →
  (∀ p, String.prefix p "--output" = true → (3 ≤ String.length p)%nat →
        to_cli py_str self result [p; v] = to_cli py_str self result ["--output"; v])
  ∧ to_cli py_str self result ["--output=" +:+ v]
    = to_cli py_str self result ["--output"; v]
  ∧ to_cli py_str self result ["-o" +:+ v] = to_cli py_str self result ["--output"; v]
  ∧ to_cli py_str self result ["-o=" +:+ v] = to_cli py_str self result ["--output"; v].
Proof.
  intros Hv.
  assert (Hrun : ∀ args,
            Argparse.parse_args cli_parser args
            = Argparse.parse_args cli_parser ["--output"; v] →
            to_cli py_str self result args = to_cli py_str self result ["--output"; v]).
  { intros args Hargs. by rewrite !to_cli_eq, Hargs. }
  rewrite !elem_of_cons, !elem_of_nil in Hv.
  split; [|destruct Hv as [-> | [-> | []]]; repeat split; apply Hrun; by vm_compute].
  intros p Hp Hlen. apply Hrun.
  repeat (destruct p as [|? p];
          [first [simpl in Hlen; lia
                 | destruct Hv as [-> | [-> | []]]; by vm_compute]
          |simpl in Hp;
           match type of Hp with
           | (if ?d then _ else _) = true => destruct d as [->|]; [|discriminate Hp]
           | false = true => discriminate Hp
           end]).
Qed.

Lemma to_cli_option_spellings_witness :
  to_cli demo_str demo_self (PList [PInt 1]) ["--out"; "json"]
  = CliPrinted ("[1]" +:+ newline)
  ∧ to_cli demo_str demo_self (PList [PInt 1]) ["-ojson"]
    = CliPrinted ("[1]" +:+ newline).
Proof.
  destruct (to_cli_option_spellings demo_str demo_self (PList [PInt 1]) "json")
    as (Hprefix & _ & Hshort & _); [by right; left|].
  split; [apply (Hprefix "--out"); [reflexivity|simpl; lia]|exact Hshort].
Defined.

(** X21. [to_cli] takes no operand: when the first argument does not
    start with a dash (the empty text included), the call exits and prints
    nothing of the result, whatever follows. *)
Theorem to_cli_rejects_leading_operand
    (py_str : pyval → outcome string) (self : JsonSerializableOutput)
    (result : pyval) (arg : string) (rest : list string) :
  no_dash arg = true →
  ∃ code, to_cli py_str self result (arg :: rest) = CliExit code.
Proof.
  intros Harg. rewrite to_cli_eq.
  destruct (Argparse.parse_args cli_parser (arg :: rest)) as [ns|code] eqn:Hargs; [|eauto].
  exfalso. revert Hargs. unfold Argparse.parse_args. cbn [Argparse.parse_loop].
  assert (String.eqb arg "--" = false
          ∧ Argparse.parse_optional cli_reg arg = Argparse.Positional) as [-> ->].
  { destruct arg as [|c arg]; [done|]. simpl in Harg.
    unfold Argparse.parse_optional. rewrite Harg. split; [|done].
    cbn [String.eqb]. by destruct (Ascii.eqb c "-"). }
  apply (parse_loop_extras _ (length rest)); [lia|done].
Qed.

Lemma to_cli_rejects_leading_operand_witness :
  (∃ code, to_cli demo_str demo_self (PInt 1) ["result.json"; "-o"; "json"] = CliExit code)
  ∧ to_cli demo_str demo_self (PInt 1) ["result.json"; "-o"; "json"] = CliExit 2.
Proof.
  split; [|reflexivity].
  exact (to_cli_rejects_leading_operand demo_str demo_self (PInt 1)
           "result.json" ["-o"; "json"] eq_refl).
Defined.

(** X22. In [json] mode [to_cli] prints one line: the text of
    [jsonize(result)], which is printable ASCII and so holds no line break,
    followed by the line break of [print]. *)
Theorem to_cli_json_one_line
    (py_str : pyval → outcome string) (self : JsonSerializableOutput)
    (result : pyval) (flag out : string) :
  flag ∈ ["-o"; "--output"] →
  to_cli py_str self result [flag; "json"] = CliPrinted out →
  ∃ text,
    jsonize py_str result = Return text
    ∧ out = text +:+ newline
    ∧ printable text = true.
Proof.
  intros Hflag. rewrite to_cli_eq, parse_args_value by done.
  change (Argparse.is_argument cli_reg "json" && existsb (String.eqb "json") ["str"; "json"])
    with true. cbv iota.
  rewrite lookup_singleton_eq, bool_decide_eq_true_2 by done.
  destruct (jsonize py_str result) as [text|e] eqn:Htext; [|done].
  intros [= <-]. exists text. split; [done|]. split; [done|].
  revert Htext. unfold jsonize.
  destruct (dumps NumpyJsonEncoder_default result) as [t|e] eqn:Hdumps.
  - intros [= <-]. by eapply iterencode_printable.
  - destruct (isinstance _ _); [|done].
    destruct (py_str result) as [t|e']; [|done]. simpl.
    apply iterencode_printable.
Qed.

Lemma to_cli_json_one_line_witness :
  ∃ text,
    jsonize demo_str (PStr (String "a" (String "010" "b"))) = Return text
    ∧ String dquote (String "a" (String backslash (String "n" (String "b"
        (String dquote newline)))))
      = text +:+ newline
    ∧ printable text = true.
Proof.
  exact (to_cli_json_one_line demo_str demo_self (PStr (String "a" (String "010" "b")))
           "-o" _ ltac:(by left) eq_refl).
Defined.

(** ** to_aws_lambda_event, continued *)

(** X23. For every result that, numpy parts converted, is a native JSON
    value, and every cors setting, the event has [statusCode] 200 and a
    [body] that [json.loads] reads back as the converted result. *)
Theorem lambda_event_body_reads_back
    (py_str : pyval → outcome string) (self : JsonSerializableOutput)
    (result event : pyval) :
  json_native (unbox result) = true →
  ∃ m text,
    to_aws_lambda_event py_str self result event = Return m
    ∧ m !! "statusCode" = Some (PInt 200)
    ∧ m !! "body" = Some (PStr text)
    ∧ Json.loads text = Return (unbox result).
Proof.
  intros Hnative. destruct (dumps_loads _ Hnative) as (text & Hdumps & Hloads).
  rewrite dumps_unbox in Hdumps.
  unfold to_aws_lambda_event. rewrite (jsonize_dumps py_str result text Hdumps). simpl.
  destruct (truthy (cors self)); eexists _, text; (split; [reflexivity|]); done.
Qed.

Lemma lambda_event_body_reads_back_witness :
  ∃ m text,
    to_aws_lambda_event demo_str demo_self
      (PList [PNpGeneric (NpInt 3); PStr "x"]) PNone = Return m
    ∧ m !! "statusCode" = Some (PInt 200)
    ∧ m !! "body" = Some (PStr text)
    ∧ Json.loads text = Return (PList [PInt 3; PStr "x"]).
Proof.
  exact (lambda_event_body_reads_back demo_str demo_self
           (PList [PNpGeneric (NpInt 3); PStr "x"]) PNone eq_refl).
Defined.
